(** * HianimeDownloader: the smart download manager

    A shallow embedding of [tools/download_manager.py]: the [DownloadTask]
    record, the [SmartDownloadManager] operations (resume manifest, chunked
    transport with resume, retry rounds, summary) and the
    [AdvancedProgressTracker], followed by the properties of the transfer
    engine that the specification states about them.

    Python integers are unbounded, so they are [Z].  Strings are
    [String.string]; dictionaries keyed by strings are [gmap string _]. *)

From Stdlib Require Import ZArith QArith Lia.
From stdpp Require Import gmap strings list fin_maps.

Local Open Scope Z_scope.

(** ** Data model *)

(** [status: str = "pending"  # pending, downloading, completed, failed, paused] *)
Inductive Status := pending | downloading | completed | failed | paused.

#[global] Instance Status_eq_dec : EqDecision Status.
Proof. solve_decision. Defined.

(** The string a status is stored as in the task. *)
Definition status_str (s : Status) : string :=
  match s with
  | pending => "pending"
  | downloading => "downloading"
  | completed => "completed"
  | failed => "failed"
  | paused => "paused"
  end.

(** [@dataclass class DownloadTask] *)
Record DownloadTask := mkTask {
  url : string;
  filename : string;
  headers : list (string * string);
  episode_number : Z;
  episode_title : string;
  file_size : Z;
  downloaded : Z;
  status : Status;
  retry_count : Z;
  max_retries : Z
}.

Definition set_status (s : Status) (t : DownloadTask) : DownloadTask :=
  mkTask (url t) (filename t) (headers t) (episode_number t) (episode_title t)
         (file_size t) (downloaded t) s (retry_count t) (max_retries t).

Definition set_downloaded (d : Z) (t : DownloadTask) : DownloadTask :=
  mkTask (url t) (filename t) (headers t) (episode_number t) (episode_title t)
         (file_size t) d (status t) (retry_count t) (max_retries t).

Definition set_file_size (n : Z) (t : DownloadTask) : DownloadTask :=
  mkTask (url t) (filename t) (headers t) (episode_number t) (episode_title t)
         n (downloaded t) (status t) (retry_count t) (max_retries t).

Definition set_retry_count (n : Z) (t : DownloadTask) : DownloadTask :=
  mkTask (url t) (filename t) (headers t) (episode_number t) (episode_title t)
         (file_size t) (downloaded t) (status t) n (max_retries t).

(** [class SmartDownloadManager]: the fields the operations below read.
    The file behind [resume_data_file] is an argument of the operations on
    the manifest; what the [progress_callbacks] are called with is returned
    by the transport. *)
Record SmartDownloadManager := mkManager {
  max_concurrent : Z;
  chunk_size : Z;
  download_tasks : list DownloadTask
}.

Definition with_tasks (ts : list DownloadTask) (self : SmartDownloadManager) :=
  mkManager (max_concurrent self) (chunk_size self) ts.

(** [__init__(self, max_concurrent=3, chunk_size=1024*1024)] *)
Definition init_manager (mc cs : Z) : SmartDownloadManager := mkManager mc cs [].

(** [add_download]: a fresh task with the dataclass defaults, appended. *)
Definition new_task (u f : string) (h : list (string * string)) (n : Z) (title : string)
  : DownloadTask :=
  mkTask u f h n title 0 0 pending 0 3.

Definition add_download (self : SmartDownloadManager) (u f : string)
    (h : list (string * string)) (n : Z) (title : string)
  : SmartDownloadManager * DownloadTask :=
  let task := new_task u f h n title in
  (with_tasks (download_tasks self ++ [task]) self, task).

(** ** get_download_summary *)

(** The [summary] dict as first built. *)
Definition summary_init (self : SmartDownloadManager) : gmap string Z :=
  <["total" := Z.of_nat (length (download_tasks self))]>
  (<["completed" := 0]> (<["failed" := 0]> (<["pending" := 0]>
  (<["downloading" := 0]> ∅)))).

(** [if task.status in summary: summary[task.status] += 1] *)
Definition summary_step (summary : gmap string Z) (task : DownloadTask) : gmap string Z :=
  match summary !! status_str (status task) with
  | Some n => <[status_str (status task) := n + 1]> summary
  | None => summary
  end.

Definition get_download_summary (self : SmartDownloadManager) : gmap string Z :=
  foldl summary_step (summary_init self) (download_tasks self).

(** Number of tasks whose status is stored as the string [k]. *)
Definition count_key (k : string) (tasks : list DownloadTask) : Z :=
  Z.of_nat (length (filter (λ t, status_str (status t) = k) tasks)).

(** Number of tasks in status [st]. *)
Definition count_status (st : Status) (tasks : list DownloadTask) : Z :=
  Z.of_nat (length (filter (λ t, status t = st) tasks)).

(** ** The environment of one transport attempt *)

(** Destination files: path to content.  [os.path.exists p] is
    [is_Some (fs !! p)], [os.path.getsize p] the length of the content.
    The resume manifest is kept apart, as a [Manifest]. *)
Abbreviation Files := (gmap string (list Byte.byte)).

Definition path_exists (fs : Files) (p : string) : bool :=
  bool_decide (is_Some (fs !! p)).

Definition getsize (fs : Files) (p : string) : Z :=
  match fs !! p with
  | Some content => Z.of_nat (length content)
  | None => 0
  end.

(** What an [except Exception] clause can catch in the transport: the
    failures of the HTTP client and of the storage calls.  The handler of
    [download_with_progress] never inspects which one it caught. *)
Inductive ExcKind :=
| ConnectionFailure
| Timeout
| TlsFailure
| HttpStatus (code : Z)
| MalformedUrl
| UnsupportedProtocol
| StorageFailure.

(** What an awaited call can raise: [asyncio.CancelledError] (not an
    [Exception]) or an [Exception]. *)
Inductive Raised :=
| Cancelled
| Exc (e : ExcKind).

(** What cuts the chunk loop short.  [fault_raised] is what is raised.
    [fault_in_write] is the chunk whose [await f.write(chunk)] raised: the
    counter is not advanced for it and no callback sees it; it is empty
    when awaiting the next chunk raises, or when closing the file raises
    once the body is exhausted.  [fault_on_disk] is how many bytes of the
    attempt (the chunks written, then the one in flight) are in the file
    afterwards: the handle is buffered and the write runs apart from the
    coroutine, so this may be more than was counted (the write in flight
    went through) or fewer (buffered bytes were lost). *)
Record StreamFault := mkFault {
  fault_raised : Raised;
  fault_in_write : list Byte.byte;
  fault_on_disk : nat
}.

(** The response of [session.get]: its status, its [Content-Length] header
    ([None] when absent or empty), the chunks whose iteration of the loop
    completes (written, counted, reported), and what ends the stream:
    [None] when the body is exhausted and the file closed, [Some fault]
    when the loop is cut short. *)
Record Response := mkResponse {
  resp_status : Z;
  content_length : option Z;
  chunks : list (list Byte.byte);
  stream_end : option StreamFault
}.

(** One attempt: the outcome of [session.get], of [os.makedirs] (which
    raises for a destination without a directory part, among others) and of
    [aiofiles.open]. *)
Record Attempt := mkAttempt {
  get_result : Raised + Response;
  makedirs_error : option ExcKind;
  open_error : option Raised
}.

Inductive Mode := ab | wb.

(** ** The resume manifest *)

(** An element of the manifest's ["tasks"] list, by what lines 84 and 88 of
    [load_resume_data] do with it: a dict with the fields of a
    [DownloadTask] (what [asdict] writes), a dict that has a ["filename"]
    that the [DownloadTask] constructor rejects, or one without
    ["filename"]. *)
Inductive Entry :=
| EntryTask (t : DownloadTask)
| EntryBadFields (f : string)
| EntryNoFilename.

(** The content of the manifest file, in the pieces [json.dump] writes:
    the opening of [{"tasks": [], one piece per element, the closing. *)
Inductive ManifestChunk :=
| ChOpen
| ChEntry (e : Entry)
| ChClose.

Definition json_dump (resume_data : list Entry) : list ManifestChunk :=
  ChOpen :: map ChEntry resume_data ++ [ChClose].

Fixpoint parse_entries (c : list ManifestChunk) : option (list Entry) :=
  match c with
  | ChEntry e :: rest =>
      match parse_entries rest with
      | Some es => Some (e :: es)
      | None => None
      end
  | ChClose :: rest =>
      match rest with
      | [] => Some []
      | _ :: _ => None
      end
  | _ => None
  end.

(** [json.load]: [None] when it raises. *)
Definition json_load (c : list ManifestChunk) : option (list Entry) :=
  match c with
  | ChOpen :: rest => parse_entries rest
  | _ => None
  end.

(** The manifest file [download_resume.json]: absent, or its content. *)
Abbreviation Manifest := (option (list ManifestChunk)).

(** What can go wrong inside the [try] of [save_resume_data]: [open]
    raises, or a write raises after [k] pieces went to the file. *)
Inductive WriteFault :=
| NoFault
| OpenFails
| WriteFailsAfter (k : nat).

(** [task.status in ["downloading", "paused"]] *)
Definition in_flight (t : DownloadTask) : bool :=
  bool_decide (status t = downloading) || bool_decide (status t = paused).

Definition resume_data (self : SmartDownloadManager) : list Entry :=
  map EntryTask (filter (λ t, in_flight t = true) (download_tasks self)).

(** [save_resume_data]: [open(self.resume_data_file, 'w')] truncates the
    file in place, [json.dump] then writes into it; any [Exception] is
    printed and swallowed. *)
Definition save_resume_data (fault : WriteFault) (manifest : Manifest)
    (self : SmartDownloadManager) : Manifest :=
  match fault with
  | OpenFails => manifest
  | NoFault => Some (json_dump (resume_data self))
  | WriteFailsAfter k => Some (take k (json_dump (resume_data self)))
  end.

(** [os.path.exists(filename)] and [os.path.getsize(filename) > 0] *)
Definition has_partial_content (fs : Files) (f : string) : bool :=
  path_exists fs f && bool_decide (0 < getsize fs f).

(** Lines 88-90. *)
Definition restore_task (fs : Files) (t : DownloadTask) : DownloadTask :=
  set_status paused (set_downloaded (getsize fs (filename t)) t).

(** The loop of [load_resume_data]: the task list, [resumed_count], and
    whether an element raised (which leaves the loop for the [except]). *)
Fixpoint load_entries (fs : Files) (entries : list Entry)
    (tasks : list DownloadTask) (resumed_count : Z)
  : list DownloadTask * Z * bool :=
  match entries with
  | [] => (tasks, resumed_count, false)
  | EntryNoFilename :: _ => (tasks, resumed_count, true)
  | EntryBadFields f :: rest =>
      if has_partial_content fs f
      then (tasks, resumed_count, true)
      else load_entries fs rest tasks resumed_count
  | EntryTask t :: rest =>
      if has_partial_content fs (filename t)
      then load_entries fs rest (tasks ++ [restore_task fs t]) (resumed_count + 1)
      else load_entries fs rest tasks resumed_count
  end.

Definition load_resume_data (manifest : Manifest) (fs : Files)
    (self : SmartDownloadManager) : SmartDownloadManager * bool :=
  match manifest with
  | None => (self, false)
  | Some content =>
      match json_load content with
      | None => (self, false)
      | Some entries =>
          let '(tasks, resumed_count, raised) :=
            load_entries fs entries (download_tasks self) 0 in
          (with_tasks tasks self,
           negb raised && bool_decide (0 < resumed_count))
      end
  end.

(** [cleanup_resume_data] *)
Definition cleanup_resume_data (remove_fails : bool) (manifest : Manifest) : Manifest :=
  match manifest with
  | Some c => if remove_fails then Some c else None
  | None => None
  end.

(** ** download_with_progress *)

(** Lines 106-116: the resume check and [task.status = "downloading"].
    The [Range] header only goes into the request. *)
Definition start_attempt (fs : Files) (task : DownloadTask) : DownloadTask * Mode :=
  let '(task, mode) :=
    if bool_decide (0 < downloaded task) && path_exists fs (filename task)
    then (task, ab)
    else (set_downloaded 0 task, wb) in
  (set_status downloading task, mode).

(** Lines 123-130: the total size, taken from the response only while
    [task.file_size == 0]. *)
Definition update_file_size (response : Response) (task : DownloadTask) : DownloadTask :=
  if bool_decide (file_size task = 0) then
    match content_length response with
    | Some n =>
        if bool_decide (resp_status response = 206)
        then set_file_size (n + downloaded task) task
        else set_file_size n task
    | None => task
    end
  else task.

(** [aiofiles.open(task.filename, mode)]: ['wb'] truncates or creates,
    ['ab'] keeps the content and creates the file when it is absent. *)
Definition open_file (mode : Mode) (p : string) (fs : Files) : Files :=
  match mode with
  | wb => <[p := []]> fs
  | ab => if path_exists fs p then fs else <[p := []]> fs
  end.

Definition append_file (p : string) (chunk : list Byte.byte) (fs : Files) : Files :=
  <[p := default [] (fs !! p) ++ chunk]> fs.

(** One iteration of the chunk loop that completes: [await f.write(chunk)]
    has returned and [task.downloaded += len(chunk)] has run.  An
    iteration whose write raises is a [StreamFault]. *)
Definition write_chunk (chunk : list Byte.byte) (fs : Files) (task : DownloadTask)
  : Files * DownloadTask :=
  (append_file (filename task) chunk fs,
   set_downloaded (downloaded task + Z.of_nat (length chunk)) task).

(** The completed iterations of the chunk loop, with the task as every
    progress callback sees it. *)
Fixpoint write_chunks (cs : list (list Byte.byte)) (fs : Files) (task : DownloadTask)
    (trace : list DownloadTask) : Files * DownloadTask * list DownloadTask :=
  match cs with
  | [] => (fs, task, trace)
  | chunk :: cs' =>
      let '(fs, task) := write_chunk chunk fs task in
      write_chunks cs' fs task (trace ++ [task])
  end.

(** The task as the progress callbacks of the chunk loop see it, one after
    the other. *)
Fixpoint snapshots (cs : list (list Byte.byte)) (task : DownloadTask)
  : list DownloadTask :=
  match cs with
  | [] => []
  | chunk :: cs' =>
      let task := set_downloaded (downloaded task + Z.of_nat (length chunk)) task in
      task :: snapshots cs' task
  end.

(** Lines 152-159, [except Exception]. *)
Definition on_exception (task : DownloadTask) : DownloadTask :=
  let task := set_status failed task in
  let task := set_retry_count (retry_count task + 1) task in
  if bool_decide (retry_count task < max_retries task)
  then set_status pending task
  else task.

(** Line 150, [self.save_resume_data()], called for the manager [self]
    whose task at position [i] is this task, just set to Paused; [fault]
    is what the write of the manifest meets. *)
Definition save_on_cancel (task : DownloadTask) (fault : WriteFault)
    (self : SmartDownloadManager) (i : nat) (manifest : Manifest) : Manifest :=
  save_resume_data fault manifest
    (with_tasks (<[i := task]> (download_tasks self)) self).

(** No write to the manifest. *)
Definition manifest_untouched (fault : WriteFault) (self : SmartDownloadManager)
    (i : nat) (manifest : Manifest) : Manifest :=
  manifest.

(** The result of an attempt: the destination files, the task, the task as
    passed to each progress callback in order, whether [CancelledError] was
    re-raised, and what the attempt did to the manifest file, as a function
    of what only the manager knows: the fault the write meets, the manager,
    the position of the task in it and the manifest before. *)
Record AttemptResult := mkResult {
  res_files : Files;
  res_task : DownloadTask;
  res_trace : list DownloadTask;
  res_cancelled : bool;
  res_manifest : WriteFault → SmartDownloadManager → nat → Manifest → Manifest
}.

(** The two [except] clauses. *)
Definition on_raise (r : Raised) (fs : Files) (task : DownloadTask)
    (trace : list DownloadTask) : AttemptResult :=
  match r with
  | Cancelled =>
      let task := set_status paused task in
      mkResult fs task trace true (save_on_cancel task)
  | Exc _ => mkResult fs (on_exception task) trace false manifest_untouched
  end.

(** The destination after a fault of the chunk loop: of the [base] bytes it
    held when it was opened, the chunks written since and the chunk in
    flight, the first [base + fault_on_disk] bytes. *)
Definition settle_file (p : string) (base : nat) (in_write : list Byte.byte)
    (on_disk : nat) (fs : Files) : Files :=
  <[p := take (base + on_disk) (default [] (fs !! p) ++ in_write)]> fs.

Definition download_with_progress (env : Attempt) (fs : Files) (task : DownloadTask)
  : AttemptResult :=
  let '(task, mode) := start_attempt fs task in
  match get_result env with
  | inl r => on_raise r fs task []
  | inr response =>
      if negb (bool_decide (resp_status response = 200)
               || bool_decide (resp_status response = 206))
      then on_raise (Exc (HttpStatus (resp_status response))) fs task []
      else
        let task := update_file_size response task in
        match makedirs_error env with
        | Some e => on_raise (Exc e) fs task []
        | None =>
            match open_error env with
            | Some r => on_raise r fs task []
            | None =>
                let fs := open_file mode (filename task) fs in
                let base := length (default [] (fs !! filename task)) in
                let '(fs, task, trace) := write_chunks (chunks response) fs task [] in
                match stream_end response with
                | Some fault =>
                    on_raise (fault_raised fault)
                             (settle_file (filename task) base (fault_in_write fault)
                                          (fault_on_disk fault) fs)
                             task trace
                | None =>
                    mkResult fs (set_status completed task) trace false
                             manifest_untouched
                end
            end
        end
  end.

(** ** download_all, run to completion *)

(** Line 182: [task.status in ["pending", "paused"]] *)
Definition eligible_first (t : DownloadTask) : bool :=
  bool_decide (status t = pending) || bool_decide (status t = paused).

(** Lines 202-203: [task.status == "pending" and task.retry_count < task.max_retries] *)
Definition eligible_retry (t : DownloadTask) : bool :=
  bool_decide (status t = pending) && bool_decide (retry_count t < max_retries t).

(** A progress callback: which task called it (by position in
    [download_tasks]) and the task objects as they are at that moment. *)
Definition Event : Type := nat * list DownloadTask.

(** One round, [gather] over the selected tasks.  A coroutine writes only
    its own task object, so the fields of the tasks after the round are
    those of running the selected attempts one after another in list order,
    which is also the order in which a semaphore of one slot lets them in.
    [done] are the tasks before the current one, [env i] is what the
    attempt of the task at position [i] meets.  What a cancelled attempt
    writes to the manifest is in its [res_manifest]; the run follows the
    destination files and the tasks, not the manifest. *)
Fixpoint run_tasks (sel : DownloadTask → bool) (env : nat → Attempt)
    (done : list DownloadTask) (fs : Files) (todo : list DownloadTask)
  : Files * list DownloadTask * list Event :=
  match todo with
  | [] => (fs, done, [])
  | t :: rest =>
      if sel t then
        let r := download_with_progress (env (length done)) fs t in
        let evs := map (λ s, (length done, done ++ s :: rest)) (res_trace r) in
        let '(fs', ts', evs') :=
          run_tasks sel env (done ++ [res_task r]) (res_files r) rest in
        (fs', ts', evs ++ evs')
      else run_tasks sel env (done ++ [t]) fs rest
  end.

(** How a call of [download_all] ends. *)
Inductive RunResult :=
| Finished (fs : Files) (ts : list DownloadTask) (events : list Event)
| SemaphoreValueError
| NeverReturns
| OutOfFuel.

(** The [while pending_tasks] loop from its second test on; [oracle r i] is
    what the task at position [i] meets in round [r]. *)
Fixpoint retry_rounds (fuel : nat) (oracle : nat → nat → Attempt) (round : nat)
    (fs : Files) (ts : list DownloadTask) (events : list Event) : RunResult :=
  if existsb eligible_retry ts then
    match fuel with
    | O => OutOfFuel
    | S fuel' =>
        let '(fs', ts', evs) := run_tasks eligible_retry (oracle round) [] fs ts in
        retry_rounds fuel' oracle (S round) fs' ts' (events ++ evs)
    end
  else Finished fs ts events.

(** [download_all], when nothing cancels it from outside.
    [asyncio.Semaphore] raises [ValueError] for a negative value; with
    value 0 no coroutine ever passes [async with semaphore].  A
    [CancelledError] out of one coroutine is collected by
    [gather(..., return_exceptions=True)] and the loop goes on.  A run that
    is itself cancelled stops where it stands: the step relation below
    covers every such prefix. *)
Definition download_all (fuel : nat) (oracle : nat → nat → Attempt) (fs : Files)
    (self : SmartDownloadManager) : RunResult :=
  match download_tasks self with
  | [] => Finished fs [] []
  | ts =>
      if bool_decide (max_concurrent self < 0) then SemaphoreValueError
      else if existsb eligible_first ts then
        if bool_decide (max_concurrent self = 0) then NeverReturns
        else
          let '(fs1, ts1, evs) := run_tasks eligible_first (oracle O) [] fs ts in
          retry_rounds fuel oracle 1 fs1 ts1 evs
      else Finished fs ts []
  end.

(** Attempts a task may still fail before its budget is spent; rounds
    enough for any oracle, since a round takes one from each task it runs;
    and what a task still owes once the retry rounds have begun. *)
Definition budget (t : DownloadTask) : nat :=
  Z.to_nat (max_retries t - retry_count t).

Definition total_budget (ts : list DownloadTask) : nat :=
  sum_list_with budget ts.

Definition owed (t : DownloadTask) : nat :=
  if eligible_retry t then budget t else O.

(** What leaves the [try] block of [download_with_progress] in an attempt:
    [None] when the body is exhausted, otherwise what was raised. *)
Definition attempt_outcome (env : Attempt) : option Raised :=
  match get_result env with
  | inl r => Some r
  | inr response =>
      if negb (bool_decide (resp_status response = 200)
               || bool_decide (resp_status response = 206))
      then Some (Exc (HttpStatus (resp_status response)))
      else
        match makedirs_error env with
        | Some e => Some (Exc e)
        | None =>
            match open_error env with
            | Some r => Some r
            | None => fault_raised <$> stream_end response
            end
        end
  end.

(** The attempt raises an [Exception] (and not [CancelledError]). *)
Definition attempt_fails (env : Attempt) : bool :=
  match attempt_outcome env with
  | Some (Exc _) => true
  | _ => false
  end.

(** What cuts the chunk loop short, in an attempt that gets as far as the
    loop: [None] when the attempt ends before the destination is opened or
    when it runs to the end of the body. *)
Definition loop_fault (env : Attempt) : option StreamFault :=
  match get_result env with
  | inl _ => None
  | inr response =>
      if negb (bool_decide (resp_status response = 200)
               || bool_decide (resp_status response = 206))
      then None
      else
        match makedirs_error env with
        | Some _ => None
        | None =>
            match open_error env with
            | Some _ => None
            | None => stream_end response
            end
        end
  end.

(** The classes of failure the specification's retry policy tells apart.
    The code has no such function; this one only serves to state what the
    specification says of it. *)
Inductive Classification := transient | terminal.

Definition spec_classify (e : ExcKind) : Classification :=
  match e with
  | MalformedUrl | UnsupportedProtocol | StorageFailure => terminal
  | ConnectionFailure | Timeout | TlsFailure | HttpStatus _ => transient
  end.

(** ** download_all, step by step *)

(** Where the coroutine [download_with_semaphore(task)] of a task stands:
    no coroutine this round, waiting in [async with semaphore], inside it
    before the first line of [download_with_progress], awaiting
    [session.get] (with the file mode chosen), past the status check and
    before the file is open, in the chunk loop (with the size the
    destination had when it was opened), back from
    [download_with_progress] but still holding the semaphore, finished. *)
Inductive Pc :=
| Idle
| WaitSem
| Holding
| Requesting (mode : Mode)
| Opening (mode : Mode)
| Streaming (base : nat)
| Releasing
| Done.

Definition Slot : Type := DownloadTask * Pc.

(** A run: the counter of the semaphore, the tasks with their coroutines,
    the destination files.  The manifest, which only a cancelled attempt
    writes, is not followed. *)
Record RunState := mkRun {
  sem_value : Z;
  slots : list Slot;
  run_files : Files
}.

(** Between acquiring and releasing the semaphore: a transport invocation
    is in progress. *)
Definition inside (pc : Pc) : bool :=
  match pc with
  | Holding | Requesting _ | Opening _ | Streaming _ | Releasing => true
  | Idle | WaitSem | Done => false
  end.

Definition at_rest (pc : Pc) : bool :=
  match pc with
  | Idle | Done => true
  | _ => false
  end.

Definition spawn (sel : DownloadTask → bool) (t : DownloadTask) : Slot :=
  (t, if sel t then WaitSem else Idle).

(** The state in which [gather] is first awaited, when [download_all]
    gets that far. *)
Definition download_all_start (fs : Files) (self : SmartDownloadManager)
  : option RunState :=
  match download_tasks self with
  | [] => None
  | ts =>
      if bool_decide (max_concurrent self < 0) then None
      else Some (mkRun (max_concurrent self) (map (spawn eligible_first) ts) fs)
  end.

Inductive step : RunState → RunState → Prop :=
| step_acquire sem l1 t l2 fs :
    0 < sem →
    step (mkRun sem (l1 ++ (t, WaitSem) :: l2) fs)
         (mkRun (sem - 1) (l1 ++ (t, Holding) :: l2) fs)
| step_start sem l1 t l2 fs :
    step (mkRun sem (l1 ++ (t, Holding) :: l2) fs)
         (mkRun sem (l1 ++ ((start_attempt fs t).1,
                            Requesting (start_attempt fs t).2) :: l2) fs)
| step_respond sem l1 t mode l2 fs response :
    (resp_status response = 200 ∨ resp_status response = 206) →
    step (mkRun sem (l1 ++ (t, Requesting mode) :: l2) fs)
         (mkRun sem (l1 ++ (update_file_size response t, Opening mode) :: l2) fs)
| step_open sem l1 t mode l2 fs :
    step (mkRun sem (l1 ++ (t, Opening mode) :: l2) fs)
         (mkRun sem
                (l1 ++ (t, Streaming
                             (length (default []
                                        (open_file mode (filename t) fs
                                           !! filename t)))) :: l2)
                (open_file mode (filename t) fs))
| step_chunk sem l1 t base l2 fs chunk :
    step (mkRun sem (l1 ++ (t, Streaming base) :: l2) fs)
         (mkRun sem (l1 ++ ((write_chunk chunk fs t).2, Streaming base) :: l2)
                (write_chunk chunk fs t).1)
| step_complete sem l1 t base l2 fs :
    step (mkRun sem (l1 ++ (t, Streaming base) :: l2) fs)
         (mkRun sem (l1 ++ (set_status completed t, Releasing) :: l2) fs)
| step_exception_request sem l1 t mode l2 fs :
    step (mkRun sem (l1 ++ (t, Requesting mode) :: l2) fs)
         (mkRun sem (l1 ++ (on_exception t, Releasing) :: l2) fs)
| step_exception_open sem l1 t mode l2 fs :
    step (mkRun sem (l1 ++ (t, Opening mode) :: l2) fs)
         (mkRun sem (l1 ++ (on_exception t, Releasing) :: l2) fs)
| step_exception_stream sem l1 t base l2 fs in_write on_disk :
    step (mkRun sem (l1 ++ (t, Streaming base) :: l2) fs)
         (mkRun sem (l1 ++ (on_exception t, Releasing) :: l2)
                (settle_file (filename t) base in_write on_disk fs))
| step_cancel_request sem l1 t mode l2 fs :
    step (mkRun sem (l1 ++ (t, Requesting mode) :: l2) fs)
         (mkRun sem (l1 ++ (set_status paused t, Releasing) :: l2) fs)
| step_cancel_open sem l1 t mode l2 fs :
    step (mkRun sem (l1 ++ (t, Opening mode) :: l2) fs)
         (mkRun sem (l1 ++ (set_status paused t, Releasing) :: l2) fs)
| step_cancel_stream sem l1 t base l2 fs in_write on_disk :
    step (mkRun sem (l1 ++ (t, Streaming base) :: l2) fs)
         (mkRun sem (l1 ++ (set_status paused t, Releasing) :: l2)
                (settle_file (filename t) base in_write on_disk fs))
| step_cancel_waiting sem l1 t l2 fs :
    step (mkRun sem (l1 ++ (t, WaitSem) :: l2) fs)
         (mkRun sem (l1 ++ (t, Done) :: l2) fs)
| step_release sem l1 t l2 fs :
    step (mkRun sem (l1 ++ (t, Releasing) :: l2) fs)
         (mkRun (sem + 1) (l1 ++ (t, Done) :: l2) fs)
| step_next_round sem l fs :
    Forall (λ s : Slot, at_rest s.2 = true) l →
    step (mkRun sem l fs)
         (mkRun sem (map (λ s : Slot, spawn eligible_retry s.1) l) fs).

Inductive reachable (s0 : RunState) : RunState → Prop :=
| reach_start : reachable s0 s0
| reach_step s s' : reachable s0 s → step s s' → reachable s0 s'.

(** Tasks whose status is [downloading], and transport invocations in
    progress. *)
Definition count_downloading (s : RunState) : Z :=
  Z.of_nat (length (filter (λ sl : Slot, status sl.1 = downloading) (slots s))).

Definition count_inside (s : RunState) : Z :=
  Z.of_nat (length (filter (λ sl : Slot, inside sl.2 = true) (slots s))).

(** After [task.status = "downloading"] and before an [except] clause or
    the end of the [try] block. *)
Definition transferring (pc : Pc) : bool :=
  match pc with
  | Requesting _ | Opening _ | Streaming _ => true
  | _ => false
  end.

(** The coroutine has an attempt ahead of it or under way. *)
Definition active (pc : Pc) : bool :=
  match pc with
  | WaitSem | Holding | Requesting _ | Opening _ | Streaming _ => true
  | _ => false
  end.

(** The retry counter is within the budget, and strictly below it for a
    task that [download_all] would still run.  Every task made by
    [add_download] is so. *)
Definition within_budget (t : DownloadTask) : Prop :=
  retry_count t ≤ max_retries t ∧
  (eligible_first t = true → retry_count t < max_retries t).

Definition slot_within_budget (sl : Slot) : Prop :=
  retry_count sl.1 ≤ max_retries sl.1 ∧
  (active sl.2 = true ∨ eligible_first sl.1 = true →
   retry_count sl.1 < max_retries sl.1).

(** ** AdvancedProgressTracker *)

(** [self.tasks] maps a file name to a task object, not to a copy: the
    object is named by its position in [download_tasks] and read from the
    task list when the progress is displayed.  Times are in seconds. *)
Record AdvancedProgressTracker := mkTracker {
  tasks : gmap string nat;
  start_time : Q;
  last_update : Q
}.


(** [self.tasks.values()], read from the task objects [store]. *)
Definition tracked (store : list DownloadTask) (tr : AdvancedProgressTracker)
  : list DownloadTask :=
  omap (λ kv : string * nat, store !! kv.2) (map_to_list (tasks tr)).

Definition sum_Z (l : list Z) : Z := foldr Z.add 0 l.

(** What [_display_progress] prints, the speed apart. *)
Record ProgressLine := mkLine {
  overall_progress : Q;
  completed_count : Z;
  total_count : Z;
  total_downloaded : Z;
  total_size : Z
}.

(** [total_downloaded / total_size] when [total_size > 0], else 0. *)
Definition progress_fraction (downloaded_sum size_sum : Z) : Q :=
  if bool_decide (0 < size_sum)
  then (inject_Z downloaded_sum / inject_Z size_sum)%Q
  else 0%Q.

Definition display_progress (store : list DownloadTask)
    (tr : AdvancedProgressTracker) : option ProgressLine :=
  if bool_decide (tasks tr = ∅) then None
  else
    let ts := tracked store tr in
    let size_sum := sum_Z (file_size <$> ts) in
    let downloaded_sum := sum_Z (downloaded <$> ts) in
    Some (mkLine (progress_fraction downloaded_sum size_sum * 100)%Q
                 (count_status completed ts)
                 (Z.of_nat (size (tasks tr)))
                 downloaded_sum size_sum).

(** [update_task_progress(task)] called at time [now] by the task at
    position [i]. *)
Definition update_task_progress (now : Q) (ev : Event)
    (tr : AdvancedProgressTracker) : AdvancedProgressTracker * option ProgressLine :=
  let '(i, store) := ev in
  match store !! i with
  | None => (tr, None)
  | Some task =>
      let tr := mkTracker (<[filename task := i]> (tasks tr))
                          (start_time tr) (last_update tr) in
      if Qlt_le_dec (now - last_update tr) (1 # 2) then (tr, None)
      else
        let tr := mkTracker (tasks tr) (start_time tr) now in
        (tr, display_progress store tr)
  end.

(** The lines displayed over a sequence of callbacks with their times. *)
Fixpoint progress_lines (evs : list (Q * Event)) (tr : AdvancedProgressTracker)
  : list ProgressLine :=
  match evs with
  | [] => []
  | (now, ev) :: rest =>
      let '(tr', line) := update_task_progress now ev tr in
      match line with
      | Some l => l :: progress_lines rest tr'
      | None => progress_lines rest tr'
      end
  end.


(** ** Sample data *)

Definition ep1 : DownloadTask :=
  mkTask "https://cdn.example/ep1.mp4" "downloads/ep1.mp4" [] 1 "Episode 1"
         0 0 pending 0 3.

Definition ep2 : DownloadTask :=
  mkTask "https://cdn.example/ep2.mp4" "downloads/ep2.mp4" [] 2 "Episode 2"
         0 0 pending 0 3.

(** A task recorded in a manifest: five bytes transferred when it was
    written, total size not yet known. *)
Definition ep1_recorded : DownloadTask :=
  set_status paused (set_downloaded 5 ep1).

Definition zeros (n : nat) : list Byte.byte := replicate n Byte.x00.

(** ** Building a manager *)

(** [create_smart_downloader(config)]: a manager with
    [config.max_concurrent_downloads] and chunks of 1 MiB.  The tracker it
    registers receives what the transport returns as its trace. *)
Definition create_smart_downloader (max_concurrent_downloads : Z)
  : SmartDownloadManager :=
  init_manager max_concurrent_downloads (1024 * 1024).

(** The arguments of one call of [add_download]. *)
Record Request := mkRequest {
  req_url : string;
  req_filename : string;
  req_headers : list (string * string);
  req_episode_number : Z;
  req_episode_title : string
}.

Definition task_of_request (q : Request) : DownloadTask :=
  new_task (req_url q) (req_filename q) (req_headers q)
           (req_episode_number q) (req_episode_title q).

(** [add_download] called once per request, in order. *)
Definition add_downloads (self : SmartDownloadManager) (reqs : list Request)
  : SmartDownloadManager :=
  foldl (λ m q, (add_download m (req_url q) (req_filename q) (req_headers q)
                              (req_episode_number q) (req_episode_title q)).1)
        self reqs.

(** What [load_resume_data] makes of a recorded task it restores. *)
Definition restored (fs : Files) (t : DownloadTask) : Prop :=
  status t = paused ∧
  has_partial_content fs (filename t) = true ∧
  downloaded t = getsize fs (filename t) ∧
  0 < downloaded t.

(** The fields an attempt has no business changing. *)
Definition same_identity (t t' : DownloadTask) : Prop :=
  url t' = url t ∧ filename t' = filename t ∧ headers t' = headers t ∧
  episode_number t' = episode_number t ∧ episode_title t' = episode_title t ∧
  max_retries t' = max_retries t.

(** The lines displayed over a sequence of callbacks, with the time of the
    callback that displayed each. *)
Fixpoint progress_log (evs : list (Q * Event)) (tr : AdvancedProgressTracker)
  : list (Q * ProgressLine) :=
  match evs with
  | [] => []
  | (now, ev) :: rest =>
      let '(tr', line) := update_task_progress now ev tr in
      match line with
      | Some l => (now, l) :: progress_log rest tr'
      | None => progress_log rest tr'
      end
  end.

(** Each time is at least half a second after the one before, [last]
    being before the first. *)
Fixpoint spaced (last : Q) (times : list Q) : Prop :=
  match times with
  | [] => True
  | now :: rest => (1 # 2 <= now - last)%Q ∧ spaced now rest
  end.



(** The progress callbacks of the attempt [r] of the task at position [i],
    [store] being the task objects when the attempt begins: at each
    callback the task is as the attempt has it, the others as they were.
    These are the events [run_tasks] records for the attempt. *)
Definition attempt_events (i : nat) (store : list DownloadTask) (r : AttemptResult)
  : list Event :=
  map (λ s, (i, <[i := s]> store)) (res_trace r).

(** * Properties *)

(** ** Summary *)

Lemma status_str_inj (a b : Status) : status_str a = status_str b → a = b.
Proof. destruct a, b; simpl; intros H; (reflexivity || discriminate H). Qed.

Lemma status_str_not_total (a : Status) : status_str a ≠ "total".
Proof. destruct a; discriminate. Qed.

Lemma count_key_cons (k : string) (t : DownloadTask) (ts : list DownloadTask) :
  count_key k (t :: ts) =
  (if decide (status_str (status t) = k) then 1 else 0) + count_key k ts.
Proof.
  unfold count_key. rewrite filter_cons.
  destruct (decide (status_str (status t) = k)); simpl length; lia.
Qed.

Lemma count_status_cons (st : Status) (t : DownloadTask) (ts : list DownloadTask) :
  count_status st (t :: ts) =
  (if decide (status t = st) then 1 else 0) + count_status st ts.
Proof.
  unfold count_status. rewrite filter_cons.
  destruct (decide (status t = st)); simpl length; lia.
Qed.

Lemma count_key_status (st : Status) (ts : list DownloadTask) :
  count_key (status_str st) ts = count_status st ts.
Proof.
  induction ts as [|t ts IH]; [reflexivity|].
  rewrite count_key_cons, count_status_cons, IH.
  destruct (decide (status_str (status t) = status_str st)) as [E|N],
           (decide (status t = st)) as [E'|N']; try reflexivity.
  - apply status_str_inj in E. contradiction.
  - subst st. contradiction.
Qed.

Lemma count_key_total (ts : list DownloadTask) : count_key "total" ts = 0.
Proof.
  induction ts as [|t ts IH]; [reflexivity|].
  rewrite count_key_cons, IH.
  destruct (decide (status_str (status t) = "total")) as [E|_]; [|reflexivity].
  destruct (status_str_not_total _ E).
Qed.

Lemma summary_step_lookup (s : gmap string Z) (t : DownloadTask) (k : string) :
  summary_step s t !! k =
  (λ n, n + (if decide (status_str (status t) = k) then 1 else 0)) <$> (s !! k).
Proof.
  unfold summary_step.
  destruct (decide (status_str (status t) = k)) as [->|N].
  - destruct (s !! k) as [n|] eqn:E.
    + rewrite lookup_insert_eq. reflexivity.
    + rewrite E. reflexivity.
  - destruct (s !! status_str (status t)) as [n|] eqn:E.
    + rewrite lookup_insert_ne by exact N.
      destruct (s !! k); simpl; f_equal; lia.
    + destruct (s !! k); simpl; f_equal; lia.
Qed.

Lemma fold_summary_lookup (ts : list DownloadTask) :
  ∀ (s : gmap string Z) (k : string),
    foldl summary_step s ts !! k = (λ n, n + count_key k ts) <$> (s !! k).
Proof.
  induction ts as [|t ts IH]; intros s k; simpl.
  - destruct (s !! k); simpl; [f_equal; unfold count_key; simpl; lia | reflexivity].
  - rewrite IH, summary_step_lookup, count_key_cons.
    destruct (s !! k); simpl; [f_equal; lia | reflexivity].
Qed.

Lemma count_status_partition (ts : list DownloadTask) :
  count_status pending ts + count_status downloading ts + count_status completed ts
  + count_status failed ts + count_status paused ts = Z.of_nat (length ts).
Proof.
  induction ts as [|t ts IH]; [reflexivity|].
  rewrite !count_status_cons. simpl length.
  destruct (status t); simpl; lia.
Qed.

(** C10: [get_download_summary] reports under "total" the number of tasks
    and under "pending", "downloading", "completed" and "failed" the number
    of tasks in that status; it has no bucket for "paused", so a paused
    task counts in "total" only and the four buckets sum to "total" minus
    the number of paused tasks. *)
Theorem get_download_summary_counts (self : SmartDownloadManager) :
  let summary := get_download_summary self in
  let ts := download_tasks self in
  summary !! "total" = Some (Z.of_nat (length ts)) ∧
  summary !! "pending" = Some (count_status pending ts) ∧
  summary !! "downloading" = Some (count_status downloading ts) ∧
  summary !! "completed" = Some (count_status completed ts) ∧
  summary !! "failed" = Some (count_status failed ts) ∧
  summary !! "paused" = None ∧
  count_status pending ts + count_status downloading ts
  + count_status completed ts + count_status failed ts
  = Z.of_nat (length ts) - count_status paused ts.
Proof.
  intros summary ts. subst summary. unfold get_download_summary.
  fold ts. rewrite !fold_summary_lookup.
  change "pending" with (status_str pending).
  change "downloading" with (status_str downloading).
  change "completed" with (status_str completed).
  change "failed" with (status_str failed).
  rewrite !count_key_status, count_key_total.
  unfold summary_init. fold ts.
  repeat split; try (vm_compute; reflexivity).
  - rewrite lookup_insert_eq. simpl. f_equal. lia.
  - pose proof (count_status_partition ts). lia.
Qed.

(** ** Resume store *)

Lemma parse_entries_dump (es : list Entry) :
  parse_entries (map ChEntry es ++ [ChClose]) = Some es.
Proof. induction es as [|e es IH]; simpl; [reflexivity | now rewrite IH]. Qed.

Lemma json_load_dump (es : list Entry) : json_load (json_dump es) = Some es.
Proof. apply parse_entries_dump. Qed.

Lemma parse_entries_truncated (es : list Entry) :
  ∀ k : nat, (k ≤ length es)%nat →
    parse_entries (take k (map ChEntry es ++ [ChClose])) = None.
Proof.
  induction es as [|e es IH]; intros k Hk; simpl in *.
  - assert (k = O) as -> by lia. reflexivity.
  - destruct k as [|k]; [reflexivity|]. simpl.
    rewrite IH by lia. reflexivity.
Qed.

Lemma json_dump_length (es : list Entry) :
  length (json_dump es) = S (S (length es)).
Proof. unfold json_dump. simpl. rewrite length_app, length_map. simpl. lia. Qed.

Lemma json_load_truncated (es : list Entry) (k : nat) :
  (k < length (json_dump es))%nat → json_load (take k (json_dump es)) = None.
Proof.
  rewrite json_dump_length. intros Hk.
  destruct k as [|k]; [reflexivity|].
  unfold json_dump. simpl. apply parse_entries_truncated. lia.
Qed.

Lemma load_entries_tasks (fs : Files) (ts : list DownloadTask) :
  ∀ (acc : list DownloadTask) (n : Z),
    load_entries fs (map EntryTask ts) acc n =
    (acc ++ map (restore_task fs)
                (filter (λ t, has_partial_content fs (filename t) = true) ts),
     n + Z.of_nat (length (filter (λ t, has_partial_content fs (filename t) = true) ts)),
     false).
Proof.
  induction ts as [|t ts IH]; intros acc n; simpl.
  - rewrite app_nil_r. do 2 f_equal. lia.
  - rewrite filter_cons.
    destruct (has_partial_content fs (filename t)) eqn:E.
    + rewrite decide_True by reflexivity. rewrite IH. simpl.
      rewrite <- app_assoc. simpl. do 2 f_equal. lia.
    + rewrite decide_False by discriminate. apply IH.
Qed.

(** C9: when the manifest file is absent, or present but unparsable,
    [load_resume_data] returns [False] through its normal exit, restores no
    task and leaves the manager as it was: exactly what it does when there
    is no resume data. *)
Theorem load_resume_data_absent_or_corrupt
    (manifest : Manifest) (fs : Files) (self : SmartDownloadManager) :
  (manifest = None ∨ ∃ c, manifest = Some c ∧ json_load c = None) →
  load_resume_data manifest fs self = (self, false) ∧
  load_resume_data manifest fs self = load_resume_data None fs self.
Proof.
  intros [-> | (c & -> & Hc)]; simpl; [split; reflexivity|].
  rewrite Hc. split; reflexivity.
Qed.

Lemma load_resume_data_absent_or_corrupt_witness :
  load_resume_data (Some [ChOpen; ChEntry (EntryTask ep1_recorded)])
                   {[ "downloads/ep1.mp4" := zeros 10 ]}
                   (init_manager 3 1048576)
  = (init_manager 3 1048576, false).
Proof.
  apply (load_resume_data_absent_or_corrupt
           (Some [ChOpen; ChEntry (EntryTask ep1_recorded)])).
  right. eexists. split; reflexivity.
Defined.

(** C2, as stated, fails: a task recorded with 5 bytes transferred whose
    destination holds 10 bytes is restored with 10, not with the minimum,
    and a recorded task whose destination is missing is not restored. *)
Lemma load_resume_data_not_min :
  ¬ (∀ (entries : list Entry) (fs : Files) (self : SmartDownloadManager)
       (t : DownloadTask),
       EntryTask t ∈ entries →
       ∃ t', t' ∈ download_tasks
                    (load_resume_data (Some (json_dump entries)) fs self).1 ∧
             filename t' = filename t ∧
             status t' = paused ∧
             downloaded t' = Z.min (downloaded t) (getsize fs (filename t))).
Proof.
  intros H.
  destruct (H [EntryTask ep1_recorded] {[ "downloads/ep1.mp4" := zeros 10 ]}
              (init_manager 3 1048576) ep1_recorded)
    as (t' & Hin & _ & _ & Hd).
  { apply list_elem_of_singleton. reflexivity. }
  assert (E : download_tasks
                (load_resume_data (Some (json_dump [EntryTask ep1_recorded]))
                   {[ "downloads/ep1.mp4" := zeros 10 ]}
                   (init_manager 3 1048576)).1
              = [set_status paused (set_downloaded 10 ep1_recorded)])
    by (vm_compute; reflexivity).
  rewrite E in Hin. apply list_elem_of_singleton in Hin. subst t'.
  vm_compute in Hd. discriminate Hd.
Qed.

(** C2, amended: from a present, parsable manifest whose elements are task
    records, [load_resume_data] appends, in manifest order, exactly the
    recorded tasks whose destination file exists with a size above zero,
    each with status Paused and [downloaded] set to the size of the file on
    disk (whatever the recorded value was) and its other fields as
    recorded; recorded tasks whose destination is missing or empty are
    skipped; the result is [True] when at least one task was restored. *)
Theorem load_resume_data_restores
    (ts : list DownloadTask) (c : list ManifestChunk) (fs : Files)
    (self : SmartDownloadManager) :
  json_load c = Some (map EntryTask ts) →
  let kept := filter (λ t, has_partial_content fs (filename t) = true) ts in
  load_resume_data (Some c) fs self =
    (with_tasks (download_tasks self ++ map (restore_task fs) kept) self,
     bool_decide (0 < Z.of_nat (length kept))) ∧
  (∀ t, status (restore_task fs t) = paused ∧
        downloaded (restore_task fs t) = getsize fs (filename t) ∧
        set_status (status t) (set_downloaded (downloaded t) (restore_task fs t)) = t).
Proof.
  intros Hc kept. split.
  - unfold load_resume_data. rewrite Hc, load_entries_tasks. fold kept.
    simpl. reflexivity.
  - intros [u f h n ti sz d st r m]. repeat split.
Qed.

Lemma load_resume_data_restores_witness :
  (load_resume_data
     (Some (json_dump [EntryTask ep1_recorded; EntryTask ep2]))
     {[ "downloads/ep1.mp4" := zeros 10 ]} (init_manager 3 1048576)).1
  = with_tasks [set_status paused (set_downloaded 10 ep1)] (init_manager 3 1048576).
Proof.
  pose proof (load_resume_data_restores [ep1_recorded; ep2]
                (json_dump [EntryTask ep1_recorded; EntryTask ep2])
                {[ "downloads/ep1.mp4" := zeros 10 ]} (init_manager 3 1048576)
                eq_refl) as [E _].
  rewrite E. vm_compute. reflexivity.
Defined.

(** C6, as stated, fails: a write that fails after the file was opened
    leaves neither the previous manifest nor the complete new one. *)
Lemma save_resume_data_not_atomic :
  ¬ (∀ (fault : WriteFault) (manifest : Manifest) (self : SmartDownloadManager),
       save_resume_data fault manifest self = Some (json_dump (resume_data self)) ∨
       save_resume_data fault manifest self = manifest).
Proof.
  intros H.
  destruct (H (WriteFailsAfter 1) (Some (json_dump [EntryTask ep1_recorded]))
              (mkManager 3 1048576 [set_status paused ep2])) as [E | E];
    vm_compute in E; discriminate E.
Qed.

(** C6, amended: [save_resume_data] never raises; it rewrites the manifest
    in place.  When [open] fails the previous manifest is left exactly as
    it was; when nothing fails the file holds the complete new manifest,
    which [json.load] reads back; when a write fails the previous content
    is gone and the file holds the part of the new manifest written so
    far, which is unparsable unless all of it was written. *)
Theorem save_resume_data_in_place
    (fault : WriteFault) (manifest : Manifest) (self : SmartDownloadManager) :
  let new := json_dump (resume_data self) in
  match fault with
  | OpenFails => save_resume_data fault manifest self = manifest
  | NoFault =>
      save_resume_data fault manifest self = Some new ∧
      json_load new = Some (resume_data self)
  | WriteFailsAfter k =>
      save_resume_data fault manifest self = Some (take k new) ∧
      if bool_decide (k < length new)%nat
      then json_load (take k new) = None
      else take k new = new
  end.
Proof.
  intros new. destruct fault as [| |k]; unfold save_resume_data; fold new.
  - split; [reflexivity | apply json_load_dump].
  - reflexivity.
  - split; [reflexivity|]. case_bool_decide as Hk.
    + apply json_load_truncated. exact Hk.
    + apply take_ge. lia.
Qed.

(** ** Transport *)

Lemma set_downloaded_same (t : DownloadTask) : set_downloaded (downloaded t) t = t.
Proof. destruct t; reflexivity. Qed.

Lemma write_chunks_task (cs : list (list Byte.byte)) :
  ∀ fs task trace,
    (write_chunks cs fs task trace).1.2 =
    set_downloaded (downloaded task + Z.of_nat (length (concat cs))) task.
Proof.
  induction cs as [|c cs IH]; intros fs task trace; simpl.
  - rewrite Z.add_0_r. symmetry. apply set_downloaded_same.
  - rewrite IH. unfold set_downloaded; simpl. f_equal.
    rewrite length_app. lia.
Qed.

Lemma write_chunks_trace (cs : list (list Byte.byte)) :
  ∀ fs task trace,
    (write_chunks cs fs task trace).2 = trace ++ snapshots cs task.
Proof.
  induction cs as [|c cs IH]; intros fs task trace; simpl.
  - now rewrite app_nil_r.
  - rewrite IH, <- app_assoc. reflexivity.
Qed.

Lemma write_chunks_files (cs : list (list Byte.byte)) :
  ∀ fs task trace old,
    fs !! filename task = Some old →
    (write_chunks cs fs task trace).1.1 !! filename task = Some (old ++ concat cs).
Proof.
  induction cs as [|c cs IH]; intros fs task trace old Hold; simpl.
  - now rewrite app_nil_r.
  - rewrite app_assoc.
    apply (IH _ (set_downloaded _ task)). simpl.
    unfold append_file. rewrite lookup_insert_eq, Hold. reflexivity.
Qed.

Lemma snapshots_bounds (cs : list (list Byte.byte)) :
  ∀ task,
    Forall (λ s, file_size s = file_size task ∧
                 status s = status task ∧
                 retry_count s = retry_count task ∧
                 max_retries s = max_retries task ∧
                 downloaded task ≤ downloaded s ∧
                 downloaded s ≤ downloaded task + Z.of_nat (length (concat cs)))
           (snapshots cs task).
Proof.
  induction cs as [|c cs IH]; intros task; simpl; constructor.
  - simpl. rewrite length_app. repeat split; lia.
  - eapply Forall_impl; [apply IH|]. simpl. intros s H.
    rewrite length_app. repeat split; try apply H; lia.
Qed.

Lemma snapshots_step (cs : list (list Byte.byte)) :
  ∀ task k s s',
    snapshots cs task !! k = Some s →
    snapshots cs task !! S k = Some s' →
    file_size s' = file_size s ∧ downloaded s ≤ downloaded s'.
Proof.
  induction cs as [|c cs IH]; intros task k s s' Hs Hs'; [discriminate Hs|].
  simpl in Hs, Hs'. destruct k as [|k].
  - injection Hs as <-. simpl in Hs'.
    pose proof (snapshots_bounds cs
                  (set_downloaded (downloaded task + Z.of_nat (length c)) task)) as B.
    rewrite Forall_lookup in B. specialize (B _ _ Hs'). simpl in B.
    destruct B as (B1 & _ & _ & _ & B2 & _). simpl. split; [exact B1 | exact B2].
  - simpl in Hs. eapply IH; eassumption.
Qed.

(** What an attempt does to the status and the retry counter, by what
    left its [try] block. *)
Lemma download_with_progress_fields (env : Attempt) (fs : Files) (task : DownloadTask) :
  let r := download_with_progress env fs task in
  max_retries (res_task r) = max_retries task ∧
  match attempt_outcome env with
  | None =>
      status (res_task r) = completed ∧ retry_count (res_task r) = retry_count task
  | Some Cancelled =>
      status (res_task r) = paused ∧ retry_count (res_task r) = retry_count task
  | Some (Exc _) =>
      retry_count (res_task r) = retry_count task + 1 ∧
      status (res_task r) =
        if bool_decide (retry_count task + 1 < max_retries task)
        then pending else failed
  end.
Proof.
  unfold download_with_progress, attempt_outcome, start_attempt.
  set (c := bool_decide (0 < downloaded task) && path_exists fs (filename task)).
  assert (Hexc : ∀ t,
             retry_count t = retry_count task → max_retries t = max_retries task →
             max_retries (on_exception t) = max_retries task ∧
             retry_count (on_exception t) = retry_count task + 1 ∧
             status (on_exception t) =
               if bool_decide (retry_count task + 1 < max_retries task)
               then pending else failed).
  { intros t Hr Hm. unfold on_exception. simpl.
    rewrite Hr, Hm. case_bool_decide; simpl; auto. }
  assert (Hs1 : ∀ response t,
             retry_count (update_file_size response t) = retry_count t).
  { intros response t. unfold update_file_size.
    repeat (case_bool_decide || case_match); reflexivity. }
  assert (Hs2 : ∀ response t,
             max_retries (update_file_size response t) = max_retries t).
  { intros response t. unfold update_file_size.
    repeat (case_bool_decide || case_match); reflexivity. }
  destruct c; simpl;
    (destruct (get_result env) as [[|e]|response]; simpl;
     [ auto
     | apply Hexc; reflexivity
     | destruct (negb _); simpl;
       [ apply Hexc; reflexivity
       | destruct (makedirs_error env) as [e|]; simpl;
         [ apply Hexc; rewrite ?Hs1, ?Hs2; reflexivity
         | destruct (open_error env) as [[|e]|]; simpl;
           [ repeat split; rewrite ?Hs1, ?Hs2; reflexivity
           | apply Hexc; rewrite ?Hs1, ?Hs2; reflexivity
           | ] ] ] ]).
  all: match goal with
       | |- context [write_chunks ?cs ?f ?t ?tr] =>
           pose proof (write_chunks_task cs f t tr) as Ht;
           destruct (write_chunks cs f t tr) as [[fs' t'] tr'] eqn:Ew
       end; simpl in Ht; subst t';
       destruct (stream_end response) as [[[|e] in_write on_disk]|]; simpl;
       [ repeat split; rewrite ?Hs1, ?Hs2; reflexivity
       | apply Hexc; simpl; rewrite ?Hs1, ?Hs2; reflexivity
       | repeat split; rewrite ?Hs1, ?Hs2; reflexivity ].
Qed.

Lemma on_exception_sizes (t : DownloadTask) :
  file_size (on_exception t) = file_size t ∧ downloaded (on_exception t) = downloaded t.
Proof. unfold on_exception. case_bool_decide; split; reflexivity. Qed.

Lemma update_file_size_downloaded (response : Response) (t : DownloadTask) :
  downloaded (update_file_size response t) = downloaded t.
Proof.
  unfold update_file_size. repeat (case_bool_decide || case_match); reflexivity.
Qed.

(** An attempt whose request is answered with 200 or 206: the callbacks see
    the snapshots of the chunk loop (none when the file could not be
    opened), the size is the one set from the headers, and the counter is
    the one at the start plus what the loop wrote. *)
Lemma download_with_progress_shape
    (env : Attempt) (fs : Files) (task : DownloadTask) (response : Response) :
  get_result env = inr response →
  (resp_status response = 200 ∨ resp_status response = 206) →
  let t2 := update_file_size response (start_attempt fs task).1 in
  let r := download_with_progress env fs task in
  file_size (res_task r) = file_size t2 ∧
  ((res_trace r = [] ∧ downloaded (res_task r) = downloaded t2) ∨
   (res_trace r = snapshots (chunks response) t2 ∧
    downloaded (res_task r) =
      downloaded t2 + Z.of_nat (length (concat (chunks response))))).
Proof.
  intros Hget Hst t2 r. subst r t2. unfold download_with_progress.
  destruct (start_attempt fs task) as [t1 mode]. rewrite Hget. simpl.
  assert (Hok : negb (bool_decide (resp_status response = 200)
                      || bool_decide (resp_status response = 206)) = false).
  { destruct Hst as [-> | ->]; reflexivity. }
  rewrite Hok.
  set (t2 := update_file_size response t1).
  destruct (makedirs_error env) as [e|]; simpl.
  { destruct (on_exception_sizes t2) as [-> ->]. auto. }
  destruct (open_error env) as [[|e]|]; simpl.
  { auto. }
  { destruct (on_exception_sizes t2) as [-> ->]. auto. }
  pose proof (write_chunks_task (chunks response)
                (open_file mode (filename t2) fs) t2 []) as Ht.
  pose proof (write_chunks_trace (chunks response)
                (open_file mode (filename t2) fs) t2 []) as Htr.
  destruct (write_chunks (chunks response) (open_file mode (filename t2) fs) t2 [])
    as [[fs' t'] tr']. simpl in Ht, Htr. subst t' tr'.
  destruct (stream_end response) as [[[|e] in_write on_disk]|]; simpl; try (split; [reflexivity | right; auto]).
  match goal with |- context [on_exception ?t] =>
    destruct (on_exception_sizes t) as [-> ->] end.
  simpl. auto.
Qed.

(** C1: a resumed request (bytes already transferred, destination present)
    answered with status 200 is written in append mode and counted from the
    old offset: the destination ends up holding the old partial bytes
    followed by the whole new body, and the attempt completes. *)
Theorem resume_answered_200_appends
    (task : DownloadTask) (fs0 : Files) (old : list Byte.byte) (k : nat)
    (cl : option Z) (cs : list (list Byte.byte)) :
  let task0 := set_downloaded (Z.of_nat (S k)) task in
  let fs := <[filename task := old]> fs0 in
  let env := mkAttempt (inr (mkResponse 200 cl cs None)) None None in
  let r := download_with_progress env fs task0 in
  res_files r !! filename task = Some (old ++ concat cs) ∧
  downloaded (res_task r) = Z.of_nat (S k) + Z.of_nat (length (concat cs)) ∧
  status (res_task r) = completed.
Proof.
  intros task0 fs env r. subst r. unfold download_with_progress, start_attempt.
  assert (Hex : path_exists fs (filename task0) = true).
  { unfold path_exists, fs. simpl. rewrite lookup_insert_eq.
    apply bool_decide_eq_true. eauto. }
  rewrite Hex. rewrite bool_decide_eq_true_2 by (simpl; lia). simpl.
  set (t2 := update_file_size _ _).
  assert (Hf : filename t2 = filename task).
  { subst t2. unfold update_file_size.
    repeat (case_bool_decide || case_match); reflexivity. }
  assert (Hd : downloaded t2 = Z.of_nat (S k)).
  { subst t2. rewrite update_file_size_downloaded. reflexivity. }
  rewrite Hf. unfold open_file.
  change (filename task0) with (filename task) in Hex. rewrite Hex.
  pose proof (write_chunks_task cs fs t2 []) as Ht.
  pose proof (write_chunks_files cs fs t2 [] old) as Hfs.
  rewrite Hf in Hfs. specialize (Hfs (lookup_insert_eq _ _ _)).
  destruct (write_chunks cs fs t2 []) as [[fs' t'] tr']. simpl in *.
  subst t'. simpl. rewrite Hd. auto.
Qed.

(** The failing input of C1: five old bytes on disk, a 200 response with an
    eight-byte body; the file ends up with thirteen bytes. *)
Example resume_answered_200_example :
  let fs : Files := {[ "downloads/ep1.mp4" := zeros 5 ]} in
  let body := replicate 8 Byte.xff in
  let env := mkAttempt (inr (mkResponse 200 (Some 8) [body] None)) None None in
  let r := download_with_progress env fs ep1_recorded in
  res_files r !! "downloads/ep1.mp4" = Some (zeros 5 ++ body) ∧
  res_files r !! "downloads/ep1.mp4" ≠ Some body ∧
  downloaded (res_task r) = 13 ∧ file_size (res_task r) = 8 ∧
  status (res_task r) = completed.
Proof. vm_compute. repeat split; discriminate. Qed.

(** ** Retry policy *)

(** C5, as stated, fails: a storage failure ([os.makedirs] raising) on a
    task with budget left puts the task back to Pending, eligible for the
    next round. *)
Lemma storage_failure_is_requeued :
  ¬ (∀ (env : Attempt) (fs : Files) (task : DownloadTask) (e : ExcKind),
       attempt_outcome env = Some (Exc e) →
       spec_classify e = terminal →
       eligible_retry (res_task (download_with_progress env fs task)) = false).
Proof.
  intros H.
  specialize (H (mkAttempt (inr (mkResponse 200 (Some 4) [] None))
                           (Some StorageFailure) None)
                ∅ ep1 StorageFailure eq_refl eq_refl).
  vm_compute in H. discriminate H.
Qed.

(** C5, amended: failures are not classified.  Whatever [Exception] ends
    an attempt (connection, timeout, HTTP status, malformed URL,
    unsupported protocol, storage), the retry counter goes up by one and
    the task is requeued as Pending exactly when the counter is still below
    [max_retries]; otherwise it is Failed. *)
Theorem every_failure_requeued_within_budget
    (env : Attempt) (fs : Files) (task : DownloadTask) (e : ExcKind) :
  attempt_outcome env = Some (Exc e) →
  let r := download_with_progress env fs task in
  retry_count (res_task r) = retry_count task + 1 ∧
  status (res_task r) =
    (if bool_decide (retry_count task + 1 < max_retries task)
     then pending else failed) ∧
  eligible_retry (res_task r) =
    bool_decide (retry_count task + 1 < max_retries task).
Proof.
  intros Hout r.
  destruct (download_with_progress_fields env fs task) as [Hm Hf].
  rewrite Hout in Hf. destruct Hf as [Hr Hs]. fold r in Hm, Hr, Hs.
  split; [exact Hr | split; [exact Hs|]].
  unfold eligible_retry. rewrite Hs, Hr, Hm.
  destruct (bool_decide (retry_count task + 1 < max_retries task)); reflexivity.
Qed.

Lemma every_failure_requeued_within_budget_witness :
  let env := mkAttempt (inl (Exc MalformedUrl)) None None in
  status (res_task (download_with_progress env ∅ ep1)) = pending ∧
  retry_count (res_task (download_with_progress env ∅ ep1)) = 1.
Proof.
  intros env.
  destruct (every_failure_requeued_within_budget env ∅ ep1 MalformedUrl eq_refl)
    as (Hr & Hs & _).
  split; [exact Hs | exact Hr].
Defined.

(** ** Byte counter and expected size *)

(** C7, as stated, fails: the counter follows the bytes received, and
    nothing compares it with the expected size.  Here a fresh transfer
    announces four bytes and delivers six. *)
Lemma downloaded_exceeds_file_size :
  ¬ (∀ (env : Attempt) (fs : Files) (task s : DownloadTask),
       s ∈ res_trace (download_with_progress env fs task) →
       file_size s ≠ 0 →
       downloaded s ≤ file_size s).
Proof.
  intros H.
  specialize (H (mkAttempt (inr (mkResponse 200 (Some 4) [zeros 4; zeros 2] None))
                           None None)
                ∅ ep1
                (set_file_size 4 (set_downloaded 6 (set_status downloading ep1)))).
  assert (6 ≤ 4); [|lia].
  apply H; [|discriminate].
  vm_compute. apply list_elem_of_further, list_elem_of_here.
Qed.

(** C7, amended: the bound holds in every attempt whose body holds no more
    bytes than remain.  When the attempt learns the expected size (it was
    unknown and [Content-Length] is present), that is: the response is
    206, or 200 for a transfer started from offset 0, and the body is no
    longer than [Content-Length] announces.  When the size is already
    known from an earlier attempt, that is: the offset the attempt starts
    from plus the length of the body is at most the size.  Then the
    counter is at most the expected size at every progress callback and at
    the end of the attempt, however the attempt ends. *)
Theorem downloaded_within_announced_size
    (env : Attempt) (fs : Files) (task : DownloadTask) (response : Response) :
  get_result env = inr response →
  (file_size task = 0 ∧
   (∃ n, content_length response = Some n ∧
         Z.of_nat (length (concat (chunks response))) ≤ n) ∧
   (resp_status response = 206 ∨
    (resp_status response = 200 ∧ (start_attempt fs task).2 = wb)))
  ∨
  (file_size task ≠ 0 ∧
   downloaded (start_attempt fs task).1
   + Z.of_nat (length (concat (chunks response))) ≤ file_size task) →
  let r := download_with_progress env fs task in
  Forall (λ s, downloaded s ≤ file_size s) (res_trace r) ∧
  downloaded (res_task r) ≤ file_size (res_task r).
Proof.
  intros Hget Hcase r.
  set (t1 := (start_attempt fs task).1) in *.
  assert (H1 : file_size t1 = file_size task ∧ 0 ≤ downloaded t1 ∧
               ((start_attempt fs task).2 = wb → downloaded t1 = 0)).
  { subst t1. unfold start_attempt.
    destruct (bool_decide (0 < downloaded task)) eqn:Hd; simpl.
    - apply bool_decide_eq_true in Hd.
      destruct (path_exists fs (filename task)); simpl;
        repeat split; try lia; try discriminate; auto.
    - repeat split; try lia; auto. }
  destruct H1 as (Hz & Hpos & Hwb).
  destruct (decide (resp_status response = 200 ∨ resp_status response = 206))
    as [Hok | Hbad].
  - destruct (download_with_progress_shape env fs task response Hget Hok)
      as [Hfs Hcases]. fold r t1 in Hfs, Hcases.
    set (t2 := update_file_size response t1) in *.
    assert (H2 : downloaded t2 + Z.of_nat (length (concat (chunks response)))
                 ≤ file_size t2).
    { subst t2. rewrite update_file_size_downloaded. unfold update_file_size.
      destruct Hcase as [(Hsz & (n & Hcl & Hlen) & Hst) | (Hnz & Hle)].
      - rewrite bool_decide_eq_true_2 by congruence. rewrite Hcl.
        destruct Hst as [H | [H Hmode]]; rewrite H; simpl.
        + lia.
        + rewrite (Hwb Hmode). lia.
      - rewrite bool_decide_eq_false_2 by congruence. lia. }
    rewrite Hfs.
    destruct Hcases as [[-> ->] | [-> ->]].
    + split; [constructor | lia].
    + split; [|exact H2].
      eapply Forall_impl; [apply snapshots_bounds|]. simpl.
      intros s (Hs & _ & _ & _ & _ & Hup). rewrite Hs. lia.
  - destruct Hcase as [(_ & _ & Hst) | (Hnz & Hle)]; [tauto|].
    assert (Hb : res_trace r = [] ∧ res_task r = on_exception t1).
    { subst r t1. unfold download_with_progress.
      destruct (start_attempt fs task) as [t1 mode]. rewrite Hget. simpl.
      rewrite !bool_decide_eq_false_2 by tauto. simpl. auto. }
    destruct Hb as [-> ->]. split; [constructor|].
    destruct (on_exception_sizes t1) as [-> ->]. lia.
Qed.

(** A later attempt: 100 bytes expected, known from an earlier attempt, 40
    of them on disk; the server answers 206 and delivers 30 and 30. *)
Lemma downloaded_within_announced_size_witness :
  let task := set_file_size 100 (set_downloaded 40 ep1) in
  let response := mkResponse 206 (Some 60) [zeros 30; zeros 30] None in
  let env := mkAttempt (inr response) None None in
  let fs : Files := {[ "downloads/ep1.mp4" := zeros 40 ]} in
  let r := download_with_progress env fs task in
  Forall (λ s, downloaded s ≤ file_size s) (res_trace r) ∧
  downloaded (res_task r) ≤ file_size (res_task r).
Proof.
  intros task response env fs.
  apply (downloaded_within_announced_size env fs task response eq_refl).
  right. split; [discriminate | vm_compute; discriminate].
Defined.

(** ** Progress aggregation *)

Lemma res_trace_snapshots (env : Attempt) (fs : Files) (task : DownloadTask) :
  res_trace (download_with_progress env fs task) = [] ∨
  ∃ cs t, res_trace (download_with_progress env fs task) = snapshots cs t.
Proof.
  unfold download_with_progress.
  destruct (start_attempt fs task) as [t1 mode].
  destruct (get_result env) as [[|e]|response]; simpl; auto.
  destruct (negb _); simpl; auto.
  destruct (makedirs_error env); simpl; auto.
  destruct (open_error env) as [[|e]|]; simpl; auto.
  match goal with |- context [write_chunks ?cs ?f ?t ?tr] =>
    pose proof (write_chunks_trace cs f t tr) as Htr;
    destruct (write_chunks cs f t tr) as [[fs' t'] tr'] end.
  simpl in Htr. subst tr'. right.
  destruct (stream_end response) as [[[|e] in_write on_disk]|]; simpl; eauto.
Qed.




Lemma progress_fraction_one (a b : Z) :
  (progress_fraction a b == 1)%Q ↔ a = b ∧ 0 < b.
Proof.
  unfold progress_fraction. case_bool_decide as Hb.
  - destruct b as [|p|p]; try lia.
    rewrite <- Qmake_Qdiv. unfold Qeq. simpl. split; [intros H; split; lia | lia].
  - unfold Qeq. simpl. split; [discriminate | lia].
Qed.


(** ** Concurrency limit *)

Lemma count_inside_mid (sem : Z) (l1 : list Slot) (t : DownloadTask) (pc : Pc)
    (l2 : list Slot) (fs : Files) :
  count_inside (mkRun sem (l1 ++ (t, pc) :: l2) fs) =
  Z.of_nat (length (filter (λ sl : Slot, inside sl.2 = true) l1))
  + Z.of_nat (length (filter (λ sl : Slot, inside sl.2 = true) l2))
  + (if inside pc then 1 else 0).
Proof.
  unfold count_inside. simpl. rewrite !filter_app, filter_cons, !length_app. simpl.
  destruct (inside pc).
  - rewrite decide_True by reflexivity. simpl. lia.
  - rewrite decide_False by discriminate. lia.
Qed.

Lemma count_inside_zero (sem : Z) (fs : Files) (l : list Slot) :
  Forall (λ sl : Slot, inside sl.2 = false) l →
  count_inside (mkRun sem l fs) = 0.
Proof.
  intros Hl. unfold count_inside. simpl.
  induction Hl as [|x l Hx _ IHl]; [reflexivity|].
  rewrite filter_cons, decide_False by congruence. exact IHl.
Qed.

Lemma spawn_outside (sel : DownloadTask → bool) (ts : list DownloadTask) :
  Forall (λ sl : Slot, inside sl.2 = false) (map (spawn sel) ts).
Proof.
  apply Forall_map, Forall_true. intros t. unfold spawn. simpl.
  destruct (sel t); reflexivity.
Qed.

Lemma filter_length_mono {A : Type} (P Q : A → Prop)
    `{∀ x, Decision (P x)} `{∀ x, Decision (Q x)} (l : list A) :
  Forall (λ x, P x → Q x) l → (length (filter P l) ≤ length (filter Q l))%nat.
Proof.
  induction 1 as [|x l Hx _ IH]; [reflexivity|].
  rewrite !filter_cons.
  destruct (decide (P x)) as [p|np]; destruct (decide (Q x)) as [q|nq]; simpl; try lia.
  destruct (nq (Hx p)).
Qed.

Lemma transferring_inside (pc : Pc) : transferring pc = true → inside pc = true.
Proof. destruct pc; simpl; congruence. Qed.

(** What the semaphore keeps true of a run with limit [C]. *)
Lemma semaphore_invariant (C : Z) (s0 s : RunState) :
  0 ≤ sem_value s0 →
  sem_value s0 + count_inside s0 = C →
  Forall (λ sl : Slot, status sl.1 = downloading → transferring sl.2 = true) (slots s0) →
  reachable s0 s →
  0 ≤ sem_value s ∧
  sem_value s + count_inside s = C ∧
  Forall (λ sl : Slot, status sl.1 = downloading → transferring sl.2 = true) (slots s).
Proof.
  intros H0 HC HF Hreach. induction Hreach as [|s s' _ IH Hstep]; [auto|].
  destruct IH as (IH0 & IHC & IHF).
  destruct Hstep; simpl in *;
    rewrite ?count_inside_mid in *; simpl in *;
    try (rewrite Forall_app, Forall_cons in IHF; destruct IHF as (F1 & Fx & F2);
         simpl in Fx);
    rewrite ?Forall_app, ?Forall_cons; simpl.
  all: try (repeat split; try lia; try assumption; try discriminate; auto; fail).
  all: try (unfold on_exception; repeat split; try lia; try assumption;
            case_bool_decide; simpl; discriminate).
  - (* next round *)
    pose proof (count_inside_zero sem fs) as Hzero.
    rewrite Hzero in IHC
      by (eapply Forall_impl; [exact H|]; intros [u pc]; simpl;
          destruct pc; simpl; intros Hx; (reflexivity || discriminate Hx)).
    rewrite Hzero
      by (apply Forall_map, Forall_true; intros [u pc]; unfold spawn; simpl;
          destruct (eligible_retry u); reflexivity).
    repeat split; try lia.
    apply Forall_map.
    pose proof (conj H IHF) as HA. rewrite <- Forall_and in HA.
    eapply Forall_impl; [exact HA|].
    intros [u pc] [Hrest Hdl] Hst. simpl in *.
    specialize (Hdl Hst). destruct pc; discriminate.
Qed.


(** C3: in a run of [download_all] with limit [max_concurrent], started
    with no task marked Downloading (as [add_download] and
    [load_resume_data] leave them), at every point of every interleaving
    of the coroutines the number of tasks whose status is Downloading is at
    most [max_concurrent], and so is the number of transport invocations in
    progress: one more is never started. *)
Theorem download_all_bounded_concurrency
    (self : SmartDownloadManager) (fs : Files) (s0 s : RunState) :
  Forall (λ t, status t ≠ downloading) (download_tasks self) →
  download_all_start fs self = Some s0 →
  reachable s0 s →
  count_downloading s ≤ max_concurrent self ∧
  count_inside s ≤ max_concurrent self.
Proof.
  intros Hinit Hstart Hreach.
  unfold download_all_start in Hstart.
  destruct (download_tasks self) as [|t0 ts0] eqn:Ets; [discriminate Hstart|].
  case_bool_decide as Hneg; [discriminate Hstart|].
  injection Hstart as <-.
  destruct (semaphore_invariant (max_concurrent self)
              (mkRun (max_concurrent self) (map (spawn eligible_first) (t0 :: ts0)) fs) s)
    as (Hsem & Hcount & Hdl); simpl sem_value; simpl slots;
    try lia; try exact Hreach.
  - rewrite count_inside_zero; [lia | apply (spawn_outside _ (t0 :: ts0))].
  - apply (Forall_map (spawn eligible_first) _ (t0 :: ts0)).
    eapply Forall_impl; [exact Hinit|]. intros t Ht Hst. destruct (Ht Hst).
  - assert (count_downloading s ≤ count_inside s); [|lia].
    unfold count_downloading, count_inside. apply inj_le.
    apply filter_length_mono.
    eapply Forall_impl; [exact Hdl|]. intros sl H Hst.
    apply transferring_inside, H, Hst.
Qed.

Lemma download_all_bounded_concurrency_witness :
  let s := mkRun 0 [(set_status downloading ep1, Requesting wb); (ep2, WaitSem)] ∅ in
  count_downloading s ≤ 1 ∧ count_inside s ≤ 1.
Proof.
  intros s.
  apply (download_all_bounded_concurrency (mkManager 1 1048576 [ep1; ep2]) ∅
           (mkRun 1 [(ep1, WaitSem); (ep2, WaitSem)] ∅) s).
  - repeat constructor; discriminate.
  - reflexivity.
  - eapply reach_step.
    + eapply reach_step.
      * apply reach_start.
      * apply (step_acquire 1 [] ep1 [(ep2, WaitSem)] ∅). lia.
    + apply (step_start (1 - 1) [] ep1 [(ep2, WaitSem)] ∅).
Defined.

(** ** Retry budget *)

Lemma eligible_first_spec (t : DownloadTask) :
  eligible_first t = true ↔ status t = pending ∨ status t = paused.
Proof.
  unfold eligible_first. rewrite orb_true_iff, !bool_decide_eq_true. reflexivity.
Qed.

Lemma eligible_retry_spec (t : DownloadTask) :
  eligible_retry t = true ↔ status t = pending ∧ retry_count t < max_retries t.
Proof.
  unfold eligible_retry. rewrite andb_true_iff, !bool_decide_eq_true. reflexivity.
Qed.

Lemma start_attempt_fields (fs : Files) (t : DownloadTask) :
  retry_count (start_attempt fs t).1 = retry_count t ∧
  max_retries (start_attempt fs t).1 = max_retries t ∧
  status (start_attempt fs t).1 = downloading.
Proof. unfold start_attempt. destruct (_ && _); simpl; auto. Qed.

Lemma update_file_size_fields (response : Response) (t : DownloadTask) :
  retry_count (update_file_size response t) = retry_count t ∧
  max_retries (update_file_size response t) = max_retries t ∧
  status (update_file_size response t) = status t.
Proof.
  unfold update_file_size. repeat (case_bool_decide || case_match); auto.
Qed.

Lemma on_exception_fields (t : DownloadTask) :
  retry_count (on_exception t) = retry_count t + 1 ∧
  max_retries (on_exception t) = max_retries t ∧
  (status (on_exception t) = pending ∧ retry_count t + 1 < max_retries t ∨
   status (on_exception t) = failed ∧ ¬ retry_count t + 1 < max_retries t).
Proof. unfold on_exception. simpl. case_bool_decide; simpl; auto. Qed.

(** The budget along a run, step by step. *)
Lemma budget_invariant (s0 s : RunState) :
  Forall slot_within_budget (slots s0) →
  reachable s0 s →
  Forall slot_within_budget (slots s).
Proof.
  intros H0 Hreach. induction Hreach as [|s s' _ IH Hstep]; [exact H0|].
  destruct Hstep; simpl in *;
    try (rewrite Forall_app, Forall_cons in IH; destruct IH as (F1 & Fx & F2);
         rewrite Forall_app, Forall_cons; split; [exact F1 | split; [|exact F2]];
         unfold slot_within_budget in *; simpl in *;
         rewrite eligible_first_spec in *).
  - intuition.
  - destruct (start_attempt_fields fs t) as (-> & -> & ->).
    intuition; discriminate.
  - destruct (update_file_size_fields response t) as (-> & -> & ->). intuition.
  - intuition.
  - intuition.
  - intuition; discriminate.
  - destruct (on_exception_fields t) as (-> & -> & [[-> Hlt] | [-> Hge]]);
      intuition; (lia || discriminate).
  - destruct (on_exception_fields t) as (-> & -> & [[-> Hlt] | [-> Hge]]);
      intuition; (lia || discriminate).
  - destruct (on_exception_fields t) as (-> & -> & [[-> Hlt] | [-> Hge]]);
      intuition; (lia || discriminate).
  - intuition.
  - intuition.
  - intuition.
  - intuition.
  - intuition.
  - apply Forall_map. eapply Forall_impl; [exact IH|].
    intros [u pc] [Hle Hlt]. unfold slot_within_budget, spawn in *. simpl in *.
    split; [exact Hle|]. intros [Hact | Hel]; [|auto].
    destruct (eligible_retry u) eqn:E; [|discriminate Hact].
    apply eligible_retry_spec in E. apply E.
Qed.

(** The tasks after a round, position by position. *)
Lemma run_tasks_spec (sel : DownloadTask → bool) (env : nat → Attempt) :
  ∀ (todo done : list DownloadTask) (fs : Files),
    ∃ out,
      (run_tasks sel env done fs todo).1.2 = done ++ out ∧
      length out = length todo ∧
      ∀ k t, todo !! k = Some t →
        ∃ fs_k,
          out !! k =
          Some (if sel t
                then res_task (download_with_progress
                                 (env (length done + k)%nat) fs_k t)
                else t).
Proof.
  induction todo as [|t rest IH]; intros done fs; simpl.
  - exists []. rewrite app_nil_r. repeat split. intros k t Hk. discriminate Hk.
  - destruct (sel t) eqn:Hsel.
    + set (r := download_with_progress (env (length done)) fs t).
      destruct (IH (done ++ [res_task r]) (res_files r)) as (out & Hout & Hlen & Hk).
      destruct (run_tasks sel env (done ++ [res_task r]) (res_files r) rest)
        as [[fs' ts'] evs']. simpl in *.
      exists (res_task r :: out). rewrite Hout, <- app_assoc. simpl.
      repeat split; [lia|].
      intros [|k] u Hu; simpl in *.
      * injection Hu as <-. exists fs. rewrite Hsel, Nat.add_0_r. reflexivity.
      * destruct (Hk k u Hu) as (fs_k & Hfs). exists fs_k. rewrite Hfs.
        rewrite length_app. simpl.
        replace (length done + 1 + k)%nat with (length done + S k)%nat by lia.
        reflexivity.
    + destruct (IH (done ++ [t]) fs) as (out & Hout & Hlen & Hk).
      exists (t :: out). rewrite Hout, <- app_assoc. simpl.
      repeat split; [lia|].
      intros [|k] u Hu; simpl in *.
      * injection Hu as <-. exists fs. rewrite Hsel. reflexivity.
      * destruct (Hk k u Hu) as (fs_k & Hfs). exists fs_k. rewrite Hfs.
        rewrite length_app. simpl.
        replace (length done + 1 + k)%nat with (length done + S k)%nat by lia.
        reflexivity.
Qed.

Lemma existsb_false_lookup {A : Type} (f : A → bool) (l : list A) :
  existsb f l = false → ∀ i x, l !! i = Some x → f x = false.
Proof.
  induction l as [|y l IH]; intros H i x Hi; [discriminate Hi|].
  simpl in H. apply orb_false_iff in H as [Hy Hl].
  destruct i as [|i]; simpl in Hi; [injection Hi as <-; exact Hy | eauto].
Qed.

(** What the retry rounds do to the task at one position, given what a
    round does to it. *)
Lemma retry_rounds_index (oracle : nat → nat → Attempt) (i : nat)
    (Q : nat → DownloadTask → Prop) :
  (∀ r t, Q r t → eligible_retry t = false → Q (S r) t) →
  (∀ r t fs, Q r t → eligible_retry t = true →
             Q (S r) (res_task (download_with_progress (oracle r i) fs t))) →
  ∀ fuel round fs ts evs fs' ts' evs' t,
    ts !! i = Some t → Q round t →
    retry_rounds fuel oracle round fs ts evs = Finished fs' ts' evs' →
    ∃ t' r', ts' !! i = Some t' ∧ Q r' t' ∧ eligible_retry t' = false.
Proof.
  intros Hstay Hmove. induction fuel as [|fuel IH];
    intros round fs ts evs fs' ts' evs' t Hi HQ Hrun; simpl in Hrun;
    destruct (existsb eligible_retry ts) eqn:E; try discriminate Hrun.
  - injection Hrun as <- <- <-. exists t, round.
    eauto using existsb_false_lookup.
  - destruct (run_tasks_spec eligible_retry (oracle round) ts [] fs)
      as (out & Hout & _ & Hk).
    destruct (run_tasks eligible_retry (oracle round) [] fs ts)
      as [[fs1 ts1] evs1]. simpl in Hout. subst ts1.
    destruct (Hk i t Hi) as (fs_i & Hti). simpl in Hti.
    eapply IH; [exact Hti | | exact Hrun].
    destruct (eligible_retry t) eqn:Et; [apply Hmove | apply Hstay]; assumption.
  - injection Hrun as <- <- <-. exists t, round.
    eauto using existsb_false_lookup.
Qed.

Lemma retry_rounds_length (oracle : nat → nat → Attempt) :
  ∀ fuel round fs ts evs fs' ts' evs',
    retry_rounds fuel oracle round fs ts evs = Finished fs' ts' evs' →
    length ts' = length ts.
Proof.
  induction fuel as [|fuel IH]; intros round fs ts evs fs' ts' evs' Hrun;
    simpl in Hrun; destruct (existsb eligible_retry ts); try discriminate Hrun;
    try (injection Hrun as <- <- <-; reflexivity).
  destruct (run_tasks_spec eligible_retry (oracle round) ts [] fs)
    as (out & Hout & Hlen & _).
  destruct (run_tasks eligible_retry (oracle round) [] fs ts)
    as [[fs1 ts1] evs1]. simpl in Hout. subst ts1.
  rewrite (IH _ _ _ _ _ _ _ Hrun). exact Hlen.
Qed.

Lemma run_tasks_Forall2 (sel : DownloadTask → bool) (env : nat → Attempt)
    (fs : Files) (ts : list DownloadTask) :
  Forall2 (λ t t', if sel t
                   then ∃ e f, t' = res_task (download_with_progress e f t)
                   else t' = t)
          ts (run_tasks sel env [] fs ts).1.2.
Proof.
  destruct (run_tasks_spec sel env ts [] fs) as (out & Hout & Hlen & Hk).
  rewrite Hout. simpl. apply Forall2_same_length_lookup. split; [lia|].
  intros i x y Hx Hy. destruct (Hk i x Hx) as (f & Hf).
  rewrite Hf in Hy. injection Hy as <-. destruct (sel x); eauto.
Qed.

Lemma owed_after_attempt (env : Attempt) (fs : Files) (t : DownloadTask) :
  (owed (res_task (download_with_progress env fs t)) ≤ budget t)%nat ∧
  (eligible_retry t = true →
   (owed (res_task (download_with_progress env fs t)) < owed t)%nat).
Proof.
  destruct (download_with_progress_fields env fs t) as [Hm Hf].
  set (t' := res_task (download_with_progress env fs t)) in *.
  assert (Hle : (owed t' ≤ budget t)%nat ∧
                (retry_count t < max_retries t → (owed t' < budget t)%nat)).
  { unfold owed. destruct (eligible_retry t') eqn:E; [|unfold budget; lia].
    apply eligible_retry_spec in E as [Est Elt].
    destruct (attempt_outcome env) as [[|e]|].
    - destruct Hf as [Hs _]. congruence.
    - destruct Hf as [Hr Hs]. unfold budget. rewrite Hm, Hr. lia.
    - destruct Hf as [Hs _]. congruence. }
  split; [apply Hle|]. intros E. unfold owed at 2. rewrite E.
  apply eligible_retry_spec in E as [_ E]. apply Hle, E.
Qed.

Lemma owed_sum_le (sel : DownloadTask → bool) (ts ts' : list DownloadTask) :
  Forall2 (λ t t', if sel t
                   then ∃ e f, t' = res_task (download_with_progress e f t)
                   else t' = t) ts ts' →
  (sum_list_with owed ts' ≤ sum_list_with budget ts)%nat.
Proof.
  induction 1 as [|t t' ts ts' Ht _ IH]; simpl; [lia|].
  assert (owed t' ≤ budget t)%nat; [|lia].
  destruct (sel t).
  - destruct Ht as (e & f & ->). apply owed_after_attempt.
  - subst t'. unfold owed. destruct (eligible_retry t); lia.
Qed.

Lemma owed_sum_lt (ts ts' : list DownloadTask) :
  Forall2 (λ t t', if eligible_retry t
                   then ∃ e f, t' = res_task (download_with_progress e f t)
                   else t' = t) ts ts' →
  (sum_list_with owed ts' ≤ sum_list_with owed ts)%nat ∧
  (existsb eligible_retry ts = true →
   (sum_list_with owed ts' < sum_list_with owed ts)%nat).
Proof.
  induction 1 as [|t t' ts ts' Ht _ [IHle IHlt]]; simpl; [split; [lia | discriminate]|].
  destruct (eligible_retry t) eqn:E.
  - destruct Ht as (e & f & ->).
    pose proof (proj2 (owed_after_attempt e f t) E). split; [lia|]. intros _. lia.
  - subst t'. split; [lia|]. simpl. intros Hex. specialize (IHlt Hex). lia.
Qed.

(** The retry rounds end: every round lowers what the tasks owe. *)
Lemma retry_rounds_terminates (oracle : nat → nat → Attempt) :
  ∀ fuel round fs ts evs,
    (sum_list_with owed ts ≤ fuel)%nat →
    ∃ fs' ts' evs', retry_rounds fuel oracle round fs ts evs = Finished fs' ts' evs'.
Proof.
  induction fuel as [|fuel IH]; intros round fs ts evs Hfuel; simpl;
    destruct (existsb eligible_retry ts) eqn:E; eauto.
  - pose proof (run_tasks_Forall2 eligible_retry (oracle round) fs ts) as HF.
    apply owed_sum_lt in HF as [_ Hlt]. specialize (Hlt E). lia.
  - pose proof (run_tasks_Forall2 eligible_retry (oracle round) fs ts) as HF.
    apply owed_sum_lt in HF as [_ Hlt]. specialize (Hlt E).
    destruct (run_tasks eligible_retry (oracle round) [] fs ts)
      as [[fs1 ts1] evs1]. simpl in Hlt.
    apply IH. lia.
Qed.

Lemma within_budget_after_attempt (env : Attempt) (fs : Files) (t : DownloadTask) :
  retry_count t < max_retries t →
  within_budget (res_task (download_with_progress env fs t)).
Proof.
  intros Hlt. destruct (download_with_progress_fields env fs t) as [Hm Hf].
  unfold within_budget. rewrite eligible_first_spec, Hm.
  destruct (attempt_outcome env) as [[|e]|].
  - destruct Hf as [Hs ->]. split; [lia | intros _; exact Hlt].
  - destruct Hf as [-> Hs]. rewrite Hs. case_bool_decide.
    + split; [lia | intros _; assumption].
    + split; [lia | intros [H' | H']; discriminate H'].
  - destruct Hf as [Hs ->]. rewrite Hs.
    split; [lia | intros [H' | H']; discriminate H'].
Qed.

Lemma attempt_fails_outcome (env : Attempt) :
  attempt_fails env = true → ∃ e, attempt_outcome env = Some (Exc e).
Proof.
  unfold attempt_fails. destruct (attempt_outcome env) as [[|e]|]; try discriminate.
  eauto.
Qed.

(** An attempt of a task with [r] failures out of [m] behind it, when the
    attempt fails too. *)
Lemma failing_task_round (m : Z) (r : nat) (env : Attempt) (fs : Files)
    (t : DownloadTask) :
  max_retries t = m → retry_count t = Z.of_nat r →
  retry_count t < m → attempt_fails env = true →
  let t' := res_task (download_with_progress env fs t) in
  max_retries t' = m ∧
  (status t' = failed ∧ retry_count t' = m ∨
   status t' = pending ∧ retry_count t' = Z.of_nat (S r) ∧ retry_count t' < m).
Proof.
  intros Hm Hr Hlt Hfail t'.
  destruct (attempt_fails_outcome env Hfail) as [e He].
  destruct (download_with_progress_fields env fs t) as [Hm' Hf].
  rewrite He in Hf. destruct Hf as [Hr' Hs']. fold t' in Hm', Hr', Hs'.
  split; [congruence|]. rewrite Hs', Hr'. case_bool_decide; [right | left].
  - repeat split; lia.
  - split; [reflexivity | lia].
Qed.

(** C4: for tasks within their budget at the start (as [add_download] makes
    them), [retry_count] is at most [max_retries] at every step of every
    interleaving of a run; the run ends; a task that starts with no failure
    and whose attempts fail [max_retries] times in a row ends the run with
    status Failed, its counter at [max_retries], selected by neither filter
    of [download_all]; and a Failed task is left as it is by a run. *)
Theorem retry_budget_respected
    (self : SmartDownloadManager) (fs : Files) (oracle : nat → nat → Attempt) :
  Forall within_budget (download_tasks self) →
  0 < max_concurrent self →
  (∀ s0 s, download_all_start fs self = Some s0 → reachable s0 s →
     Forall (λ sl : Slot, retry_count sl.1 ≤ max_retries sl.1) (slots s)) ∧
  ∃ fs' ts' evs,
    download_all (total_budget (download_tasks self)) oracle fs self
      = Finished fs' ts' evs ∧
    Forall (λ t, retry_count t ≤ max_retries t) ts' ∧
    (∀ i t, download_tasks self !! i = Some t →
       eligible_first t = true → retry_count t = 0 →
       (∀ r, Z.of_nat r < max_retries t → attempt_fails (oracle r i) = true) →
       ∃ t', ts' !! i = Some t' ∧ status t' = failed ∧
             retry_count t' = max_retries t ∧
             eligible_first t' = false ∧ eligible_retry t' = false) ∧
    (∀ i t, download_tasks self !! i = Some t → status t = failed →
       ts' !! i = Some t).
Proof.
  intros Hwb Hmc. split.
  { intros s0 s Hstart Hreach. unfold download_all_start in Hstart.
    destruct (download_tasks self) as [|t0 ts0]; [discriminate Hstart|].
    case_bool_decide; [discriminate Hstart|]. injection Hstart as <-.
    eapply Forall_impl; [eapply budget_invariant; [|exact Hreach]|].
    - simpl slots. apply (Forall_map (spawn eligible_first) _ (t0 :: ts0)).
      eapply Forall_impl; [exact Hwb|]. intros t [Hle Hlt].
      unfold slot_within_budget, spawn. simpl. split; [exact Hle|].
      destruct (eligible_first t); [auto | intros [H'|H']; discriminate H'].
    - intros sl [Hle _]. exact Hle. }
  unfold download_all.
  destruct (download_tasks self) as [|t0 ts0] eqn:Ets.
  { exists fs, [], []. repeat split; [constructor | |]; intros i t Hi; discriminate Hi. }
  rewrite <- Ets in *. clear Ets t0 ts0. set (ts := download_tasks self) in *.
  rewrite bool_decide_eq_false_2 by lia.
  destruct (existsb eligible_first ts) eqn:Efirst.
  2: { exists fs, ts, []. split; [destruct ts; reflexivity|].
       split; [eapply Forall_impl; [exact Hwb|]; intros t [H' _]; exact H'|].
       split; [|auto].
       intros i t Hi Hel. rewrite (existsb_false_lookup _ _ Efirst i t Hi) in Hel.
       discriminate Hel. }
  rewrite bool_decide_eq_false_2 by lia.
  pose proof (run_tasks_Forall2 eligible_first (oracle O) fs ts) as HF2.
  destruct (run_tasks_spec eligible_first (oracle O) ts [] fs)
    as (out & Hout & Hlen & Hk).
  destruct (run_tasks eligible_first (oracle O) [] fs ts) as [[fs1 ts1] evs1].
  simpl in HF2, Hout. subst ts1.
  destruct (retry_rounds_terminates oracle (total_budget ts) 1 fs1 out evs1)
    as (fs' & ts' & evs' & Hrun).
  { apply owed_sum_le with (sel := eligible_first). exact HF2. }
  exists fs', ts', evs'.
  split; [destruct ts; [discriminate Efirst | exact Hrun]|].
  assert (Hwb1 : Forall within_budget out).
  { apply Forall_lookup. intros i t1 Hi1.
    destruct (ts !! i) as [t|] eqn:Hi.
    - destruct (Hk i t Hi) as (fs_i & Hti). rewrite Hti in Hi1. injection Hi1 as <-.
      pose proof (proj1 (Forall_lookup _ _) Hwb i t Hi) as [Hle Hlt].
      destruct (eligible_first t) eqn:E.
      + apply within_budget_after_attempt. auto.
      + split; [exact Hle | rewrite E; discriminate].
    - apply lookup_ge_None in Hi. apply lookup_lt_Some in Hi1. lia. }
  split; [|split].
  - apply Forall_lookup. intros i t' Hi'.
    pose proof (retry_rounds_length _ _ _ _ _ _ _ _ _ Hrun) as Hl.
    destruct (out !! i) as [t1|] eqn:Hi1.
    + destruct (retry_rounds_index oracle i (λ _ t, within_budget t))
        with (fuel := total_budget ts) (round := 1%nat) (fs := fs1) (ts := out)
             (evs := evs1) (fs' := fs') (ts' := ts') (evs' := evs') (t := t1)
        as (t'' & r' & Ht'' & [Hle _] & _); auto.
      * intros r t f _ E. apply within_budget_after_attempt.
        apply eligible_retry_spec in E. apply E.
      * exact (proj1 (Forall_lookup _ _) Hwb1 i t1 Hi1).
      * congruence.
    + apply lookup_ge_None in Hi1. apply lookup_lt_Some in Hi'. lia.
  - intros i t Hi Hel Hzero Hfails.
    pose proof (proj1 (Forall_lookup _ _) Hwb i t Hi) as [_ Hlt].
    specialize (Hlt Hel).
    destruct (Hk i t Hi) as (fs_i & Hti). rewrite Hel in Hti. simpl in Hti.
    destruct (failing_task_round (max_retries t) O (oracle O i) fs_i t)
      as [Hm1 Hst1]; auto; try lia.
    { apply Hfails. simpl. lia. }
    set (m := max_retries t) in *.
    destruct (retry_rounds_index oracle i
                (λ r u, max_retries u = m ∧
                        (status u = failed ∧ retry_count u = m ∨
                         status u = pending ∧ retry_count u = Z.of_nat r ∧
                         retry_count u < m)))
      with (fuel := total_budget ts) (round := 1%nat) (fs := fs1) (ts := out)
           (evs := evs1) (fs' := fs') (ts' := ts') (evs' := evs')
           (t := res_task (download_with_progress (oracle O i) fs_i t))
      as (t' & r' & Ht' & [Hm' Hst'] & Hne); auto.
    + intros r u [Hmu [Hu | (Hu & _ & Hu')]] E; [auto|].
      assert (eligible_retry u = true) as E'
          by (apply eligible_retry_spec; split; [exact Hu | lia]).
      congruence.
    + intros r u f [Hmu [[Hu _] | (Hu & Hr & Hu')]] E.
      * apply eligible_retry_spec in E as [E _]. congruence.
      * apply failing_task_round; auto. apply Hfails. fold m. lia.
    + exists t'. split; [exact Ht'|].
      destruct Hst' as [[Hf Hr] | (Hp & _ & Hr)].
      * repeat split; auto.
        unfold eligible_first. rewrite Hf. reflexivity.
      * assert (eligible_retry t' = true) as E'
            by (apply eligible_retry_spec; split; [exact Hp | lia]).
        congruence.
  - intros i t Hi Hst.
    destruct (Hk i t Hi) as (fs_i & Hti).
    assert (Hnf : eligible_first t = false)
      by (unfold eligible_first; rewrite Hst; reflexivity).
    rewrite Hnf in Hti.
    destruct (retry_rounds_index oracle i (λ _ u, u = t))
      with (fuel := total_budget ts) (round := 1%nat) (fs := fs1) (ts := out)
           (evs := evs1) (fs' := fs') (ts' := ts') (evs' := evs') (t := t)
      as (t' & r' & Ht' & -> & _); auto.
    intros r u f -> E. apply eligible_retry_spec in E as [E _]. congruence.
Qed.

Lemma retry_budget_respected_witness :
  let oracle := λ _ _ : nat, mkAttempt (inl (Exc ConnectionFailure)) None None in
  ∃ fs' ts' evs,
    download_all 3 oracle ∅ (mkManager 3 1048576 [ep1]) = Finished fs' ts' evs ∧
    ∃ t', ts' !! O = Some t' ∧ status t' = failed ∧ retry_count t' = 3.
Proof.
  intros oracle.
  destruct (retry_budget_respected (mkManager 3 1048576 [ep1]) ∅ oracle)
    as (_ & fs' & ts' & evs & Hrun & _ & Hfail & _).
  - repeat constructor; simpl; lia.
  - simpl. lia.
  - exists fs', ts', evs. split; [exact Hrun|].
    destruct (Hfail O ep1 eq_refl eq_refl eq_refl (λ _ _, eq_refl))
      as (t' & Ht' & Hs & Hr & _).
    exists t'. auto.
Defined.

(** ** The two models of an attempt agree *)

Lemma reachable_trans (a b c : RunState) :
  reachable a b → reachable b c → reachable a c.
Proof.
  intros Hab Hbc. induction Hbc as [|s s' _ IH Hstep]; [exact Hab|].
  eapply reach_step; eassumption.
Qed.

Lemma reachable_one (a b : RunState) : step a b → reachable a b.
Proof. intros H. eapply reach_step; [apply reach_start | exact H]. Qed.

Lemma chunk_loop_steps (sem : Z) (l1 l2 : list Slot) (base : nat)
    (cs : list (list Byte.byte)) :
  ∀ (fs : Files) (t : DownloadTask) (trace : list DownloadTask),
    reachable (mkRun sem (l1 ++ (t, Streaming base) :: l2) fs)
              (mkRun sem
                     (l1 ++ ((write_chunks cs fs t trace).1.2, Streaming base) :: l2)
                     (write_chunks cs fs t trace).1.1).
Proof.
  induction cs as [|c cs IH]; intros fs t trace; simpl; [apply reach_start|].
  eapply reachable_trans; [apply reachable_one, (step_chunk _ _ _ _ _ _ c)|].
  apply IH.
Qed.

(** Whatever an attempt meets, the steps of the coroutine lead from the
    call of [download_with_progress] to its return with the task and the
    files that the function computes. *)
Lemma attempt_steps (env : Attempt) (sem : Z) (l1 l2 : list Slot) (fs : Files)
    (t : DownloadTask) :
  let r := download_with_progress env fs t in
  reachable (mkRun sem (l1 ++ (t, Holding) :: l2) fs)
            (mkRun sem (l1 ++ (res_task r, Releasing) :: l2) (res_files r)).
Proof.
  intros r. subst r. unfold download_with_progress.
  eapply reachable_trans; [apply reachable_one, step_start|].
  destruct (start_attempt fs t) as [t1 mode]. simpl.
  destruct (get_result env) as [[|e]|response]; simpl.
  { apply reachable_one, step_cancel_request. }
  { apply reachable_one, step_exception_request. }
  destruct (negb _) eqn:Hst; simpl.
  { apply reachable_one, step_exception_request. }
  apply negb_false_iff, orb_true_iff in Hst.
  rewrite !bool_decide_eq_true in Hst.
  eapply reachable_trans; [apply reachable_one, (step_respond _ _ _ _ _ _ response Hst)|].
  set (t2 := update_file_size response t1).
  destruct (makedirs_error env) as [e|]; simpl.
  { apply reachable_one, step_exception_open. }
  destruct (open_error env) as [[|e]|]; simpl.
  { apply reachable_one, step_cancel_open. }
  { apply reachable_one, step_exception_open. }
  eapply reachable_trans; [apply reachable_one, step_open|].
  eapply reachable_trans; [apply (chunk_loop_steps _ _ _ _ (chunks response) _ _ [])|].
  destruct (write_chunks (chunks response) (open_file mode (filename t2) fs) t2 [])
    as [[fs' t'] tr']. simpl.
  destruct (stream_end response) as [[[|e] in_write on_disk]|]; simpl.
  - apply reachable_one, step_cancel_stream.
  - apply reachable_one, step_exception_stream.
  - apply reachable_one, step_complete.
Qed.

(** * Further properties of the manager *)

(** ** Building a manager and summarising it *)

Lemma count_key_app (k : string) (ts us : list DownloadTask) :
  count_key k (ts ++ us) = count_key k ts + count_key k us.
Proof. unfold count_key. rewrite filter_app, length_app. lia. Qed.

(** X1: [add_download] returns a task with the URL, the destination, the
    headers, the episode number and the title it was given, no byte
    transferred, size unknown, Pending, no retry made and a budget of
    three; it appends that task to the list and leaves the settings of the
    manager alone; in the summary it raises "total" and "pending" by one
    and leaves every other entry as it was. *)
Theorem add_download_summary (self : SmartDownloadManager) (u f : string)
    (h : list (string * string)) (n : Z) (title : string) :
  let self' := (add_download self u f h n title).1 in
  let task := (add_download self u f h n title).2 in
  task = mkTask u f h n title 0 0 pending 0 3 ∧
  download_tasks self' = download_tasks self ++ [task] ∧
  max_concurrent self' = max_concurrent self ∧
  chunk_size self' = chunk_size self ∧
  get_download_summary self' !! "total"
    = Some (Z.of_nat (length (download_tasks self)) + 1) ∧
  get_download_summary self' !! "pending"
    = Some (count_status pending (download_tasks self) + 1) ∧
  ∀ k, k ≠ "total" → k ≠ "pending" →
       get_download_summary self' !! k = get_download_summary self !! k.
Proof.
  intros self' task. subst self' task. unfold add_download, get_download_summary.
  simpl.
  do 4 (split; [reflexivity|]). rewrite !fold_summary_lookup.
  unfold summary_init. simpl. rewrite length_app. simpl.
  split; [|split].
  - rewrite lookup_insert_eq, count_key_total. simpl. f_equal. lia.
  - rewrite lookup_insert_ne by discriminate.
    match goal with |- context [?m !! "pending"] =>
      assert (E : m !! "pending" = Some 0) by (vm_compute; reflexivity);
      rewrite E end.
    change (count_key "pending") with (count_key (status_str pending)).
    rewrite count_key_app, !count_key_status. simpl. reflexivity.
  - intros k Hk1 Hk2. rewrite !fold_summary_lookup.
    rewrite !(lookup_insert_ne _ "total") by congruence.
    rewrite count_key_app.
    assert (E : count_key k [new_task u f h n title] = 0).
    { unfold count_key. rewrite filter_cons, decide_False by (simpl; congruence).
      reflexivity. }
    rewrite E, Z.add_0_r. reflexivity.
Qed.

Lemma add_downloads_tasks (reqs : list Request) :
  ∀ self,
    download_tasks (add_downloads self reqs)
      = download_tasks self ++ map task_of_request reqs ∧
    max_concurrent (add_downloads self reqs) = max_concurrent self ∧
    chunk_size (add_downloads self reqs) = chunk_size self.
Proof.
  induction reqs as [|q reqs IH]; intros self; simpl.
  - rewrite app_nil_r. auto.
  - destruct (IH (add_download self (req_url q) (req_filename q) (req_headers q)
                    (req_episode_number q) (req_episode_title q)).1)
      as (Ht & Hm & Hc).
    unfold add_downloads in *. simpl in *. rewrite Ht, Hm, Hc, <- app_assoc.
    auto.
Qed.

(** X2: a manager made by [create_smart_downloader] and filled by calls of
    [add_download] holds one task per call, in call order, each Pending
    with nothing transferred, no failure counted and a budget of 3: so
    every task is within its budget and none is marked Downloading, which
    is what the concurrency and retry properties ask of the start of a
    run. *)
Theorem api_built_manager (max_concurrent_downloads : Z) (reqs : list Request) :
  let self := add_downloads (create_smart_downloader max_concurrent_downloads) reqs in
  max_concurrent self = max_concurrent_downloads ∧
  map filename (download_tasks self) = map req_filename reqs ∧
  Forall (λ t, status t = pending ∧ downloaded t = 0 ∧ file_size t = 0 ∧
               retry_count t = 0 ∧ max_retries t = 3)
         (download_tasks self) ∧
  Forall within_budget (download_tasks self) ∧
  Forall (λ t, status t ≠ downloading) (download_tasks self).
Proof.
  intros self.
  destruct (add_downloads_tasks reqs (create_smart_downloader max_concurrent_downloads))
    as (Ht & Hm & _). fold self in Ht, Hm. simpl in Ht, Hm.
  rewrite Ht. split; [exact Hm|]. split.
  { rewrite map_map. reflexivity. }
  assert (H : Forall (λ t, status t = pending ∧ downloaded t = 0 ∧ file_size t = 0 ∧
                           retry_count t = 0 ∧ max_retries t = 3)
                     (map task_of_request reqs)).
  { apply Forall_map, Forall_true. intros q. repeat split. }
  split; [exact H|]. split.
  - eapply Forall_impl; [exact H|]. intros t (_ & _ & _ & Hr & Hx).
    unfold within_budget. rewrite Hr, Hx. split; [lia | intros _; lia].
  - eapply Forall_impl; [exact H|]. intros t (Hs & _). rewrite Hs. discriminate.
Qed.

(** ** More on the resume store *)

Lemma restore_task_restored (fs : Files) (t : DownloadTask) :
  has_partial_content fs (filename t) = true → restored fs (restore_task fs t).
Proof.
  intros H. unfold restored. simpl. repeat split; [exact H|].
  unfold has_partial_content in H. apply andb_true_iff in H as [_ H].
  apply bool_decide_eq_true in H. exact H.
Qed.

Lemma load_entries_any (fs : Files) (entries : list Entry) :
  ∀ (acc : list DownloadTask) (n : Z),
    ∃ new,
      (load_entries fs entries acc n).1.1 = acc ++ new ∧
      (load_entries fs entries acc n).1.2 = n + Z.of_nat (length new) ∧
      Forall (restored fs) new.
Proof.
  induction entries as [|e entries IH]; intros acc n; simpl.
  - exists []. rewrite app_nil_r. repeat split; simpl; [lia | constructor].
  - destruct e as [t|f|].
    + destruct (has_partial_content fs (filename t)) eqn:E.
      * destruct (IH (acc ++ [restore_task fs t]) (n + 1)) as (new & H1 & H2 & H3).
        exists (restore_task fs t :: new). rewrite H1, H2, <- app_assoc. simpl.
        repeat split; [lia|]. constructor; [|exact H3].
        apply restore_task_restored, E.
      * apply IH.
    + destruct (has_partial_content fs f); [|apply IH].
      exists []. simpl. rewrite app_nil_r. repeat split; simpl; [lia | constructor].
    + exists []. simpl. rewrite app_nil_r. repeat split; simpl; [lia | constructor].
Qed.

(** X3: whatever the manifest holds (absent, unparsable, with elements
    that are not task records), [load_resume_data] keeps the tasks the
    manager had, in place, and only appends tasks that are Paused, whose
    destination exists and is not empty, and whose [downloaded] is the size
    of that file; each of them is eligible for the next run and its first
    attempt resumes in append mode.  When it returns [True] at least one
    task was appended. *)
Theorem load_resume_data_appends_restored
    (manifest : Manifest) (fs : Files) (self : SmartDownloadManager) :
  ∃ new,
    download_tasks (load_resume_data manifest fs self).1 = download_tasks self ++ new ∧
    max_concurrent (load_resume_data manifest fs self).1 = max_concurrent self ∧
    Forall (λ t, restored fs t ∧ eligible_first t = true ∧
                 start_attempt fs t = (set_status downloading t, ab)) new ∧
    ((load_resume_data manifest fs self).2 = true → new ≠ []).
Proof.
  assert (Hnone : ∃ new : list DownloadTask,
             download_tasks self = download_tasks self ++ new ∧
             max_concurrent self = max_concurrent self ∧
             Forall (λ t, restored fs t ∧ eligible_first t = true ∧
                          start_attempt fs t = (set_status downloading t, ab)) new ∧
             (false = true → new ≠ [])).
  { exists []. rewrite app_nil_r. repeat split; [constructor | discriminate]. }
  unfold load_resume_data. destruct manifest as [c|]; [|exact Hnone].
  destruct (json_load c) as [entries|]; [|exact Hnone].
  destruct (load_entries_any fs entries (download_tasks self) 0) as (new & H1 & H2 & H3).
  destruct (load_entries fs entries (download_tasks self) 0) as [[ts m] raised].
  simpl in *. subst ts m. exists new. repeat split.
  - eapply Forall_impl; [exact H3|]. intros t (Hs & Hp & Hd & Hpos).
    split; [repeat split; assumption|]. split.
    + unfold eligible_first. rewrite Hs. reflexivity.
    + unfold start_attempt. unfold has_partial_content in Hp.
      apply andb_true_iff in Hp as [Hp _]. rewrite Hp.
      rewrite bool_decide_eq_true_2 by exact Hpos. reflexivity.
  - intros Ht. apply andb_true_iff in Ht as [_ Ht].
    apply bool_decide_eq_true in Ht. intros ->. simpl in Ht. lia.
Qed.

(** X4: when an element of the manifest makes the loop raise (it has no
    "filename", or it is not a task record and its file has partial
    content), the tasks restored from the elements before it stay in the
    manager, the elements after it are not looked at, and the result is
    [False] all the same. *)
Theorem load_resume_data_stops_at_bad_entry
    (ts : list DownloadTask) (bad : Entry) (rest : list Entry) (fs : Files)
    (self : SmartDownloadManager) :
  (bad = EntryNoFilename ∨
   ∃ f, bad = EntryBadFields f ∧ has_partial_content fs f = true) →
  load_resume_data (Some (json_dump (map EntryTask ts ++ bad :: rest))) fs self =
    (with_tasks (download_tasks self ++
                 map (restore_task fs)
                     (filter (λ t, has_partial_content fs (filename t) = true) ts))
                self,
     false).
Proof.
  intros Hbad. unfold load_resume_data. rewrite json_load_dump.
  assert (H : ∀ acc n,
             load_entries fs (map EntryTask ts ++ bad :: rest) acc n =
             (acc ++ map (restore_task fs)
                         (filter (λ t, has_partial_content fs (filename t) = true) ts),
              n + Z.of_nat (length (filter (λ t, has_partial_content fs (filename t) = true) ts)),
              true)).
  { induction ts as [|t ts IH]; intros acc n; simpl.
    - rewrite app_nil_r, Z.add_0_r.
      destruct Hbad as [-> | (f & -> & Hf)]; simpl; [reflexivity|].
      rewrite Hf. reflexivity.
    - rewrite filter_cons.
      destruct (has_partial_content fs (filename t)) eqn:E.
      + rewrite decide_True by reflexivity. rewrite IH. simpl.
        rewrite <- app_assoc. simpl. do 2 f_equal. lia.
      + rewrite decide_False by discriminate. apply IH. }
  rewrite H. reflexivity.
Qed.

Lemma load_resume_data_stops_at_bad_entry_witness :
  load_resume_data
    (Some (json_dump [EntryTask ep1_recorded; EntryNoFilename; EntryTask ep2]))
    {[ "downloads/ep1.mp4" := zeros 10; "downloads/ep2.mp4" := zeros 7 ]}
    (init_manager 3 1048576)
  = (with_tasks [set_status paused (set_downloaded 10 ep1)] (init_manager 3 1048576),
     false).
Proof.
  rewrite (load_resume_data_stops_at_bad_entry [ep1_recorded] EntryNoFilename
             [EntryTask ep2]
             {[ "downloads/ep1.mp4" := zeros 10; "downloads/ep2.mp4" := zeros 7 ]}
             (init_manager 3 1048576) (or_introl eq_refl)).
  vm_compute. reflexivity.
Defined.

Lemma load_after_save (manifest : Manifest) (self self' : SmartDownloadManager)
    (fs : Files) :
  load_resume_data (save_resume_data NoFault manifest self) fs self' =
    (with_tasks
       (download_tasks self' ++
        map (restore_task fs)
            (filter (λ t, has_partial_content fs (filename t) = true)
                    (filter (λ t, in_flight t = true) (download_tasks self))))
       self',
     bool_decide
       (0 < Z.of_nat
              (length (filter (λ t, has_partial_content fs (filename t) = true)
                              (filter (λ t, in_flight t = true)
                                      (download_tasks self)))))).
Proof.
  unfold save_resume_data, load_resume_data, resume_data.
  rewrite json_load_dump, load_entries_tasks. reflexivity.
Qed.

(** X5: a manifest written without fault by [save_resume_data] and read
    back by [load_resume_data] restores, in order, exactly the tasks that
    were Downloading or Paused when it was written and whose destination
    holds partial content, each Paused with the size on disk; Pending,
    Completed and Failed tasks are never restored. *)
Theorem save_then_load (manifest : Manifest) (self self' : SmartDownloadManager)
    (fs : Files) :
  let kept := filter (λ t, has_partial_content fs (filename t) = true)
                     (filter (λ t, in_flight t = true) (download_tasks self)) in
  load_resume_data (save_resume_data NoFault manifest self) fs self' =
    (with_tasks (download_tasks self' ++ map (restore_task fs) kept) self',
     bool_decide (0 < Z.of_nat (length kept))) ∧
  Forall (λ t, status t = downloading ∨ status t = paused) kept.
Proof.
  intros kept. split; [apply load_after_save|].
  subst kept. apply Forall_forall. intros t Ht.
  apply list_elem_of_filter in Ht as [_ Ht].
  apply list_elem_of_filter in Ht as [Ht _].
  unfold in_flight in Ht. apply orb_true_iff in Ht.
  rewrite !bool_decide_eq_true in Ht. exact Ht.
Qed.

(** X6: snapshot then restore is the identity on what is in flight: when
    every task that is Downloading or Paused is in fact Paused with a
    counter equal to the non-zero size of its destination, writing the
    manifest and loading it into a manager without tasks gives back exactly
    those tasks, unchanged and in order. *)
Theorem save_then_load_identity (manifest : Manifest) (self : SmartDownloadManager)
    (fs : Files) :
  Forall (λ t, in_flight t = true →
               status t = paused ∧ downloaded t = getsize fs (filename t) ∧
               0 < downloaded t)
         (download_tasks self) →
  load_resume_data (save_resume_data NoFault manifest self) fs (with_tasks [] self) =
    (with_tasks (filter (λ t, in_flight t = true) (download_tasks self)) self,
     bool_decide (0 < Z.of_nat (length (filter (λ t, in_flight t = true)
                                               (download_tasks self))))).
Proof.
  intros Hc. rewrite load_after_save. simpl.
  assert (H : ∀ ts : list DownloadTask,
             Forall (λ t, in_flight t = true →
                          status t = paused ∧ downloaded t = getsize fs (filename t) ∧
                          0 < downloaded t) ts →
             filter (λ t, has_partial_content fs (filename t) = true)
                    (filter (λ t, in_flight t = true) ts)
               = filter (λ t, in_flight t = true) ts ∧
             map (restore_task fs) (filter (λ t, in_flight t = true) ts)
               = filter (λ t, in_flight t = true) ts).
  { induction 1 as [|t ts Ht _ [IH1 IH2]]; [split; reflexivity|].
    rewrite filter_cons. destruct (decide (in_flight t = true)) as [Hin|]; [|auto].
    destruct (Ht Hin) as (Hs & Hd & Hpos).
    rewrite filter_cons. simpl. rewrite IH1, IH2.
    assert (Hp : has_partial_content fs (filename t) = true).
    { unfold has_partial_content, path_exists. rewrite <- Hd.
      rewrite (bool_decide_eq_true_2 (0 < downloaded t)) by exact Hpos.
      rewrite andb_true_r. apply bool_decide_eq_true.
      unfold getsize in Hd. destruct (fs !! filename t); [eauto | lia]. }
    rewrite decide_True by exact Hp. split; [reflexivity|]. f_equal.
    unfold restore_task. rewrite <- Hd, <- Hs. destruct t; reflexivity. }
  destruct (H _ Hc) as [-> ->]. reflexivity.
Qed.

Lemma save_then_load_identity_witness :
  let t := set_status paused (set_downloaded 10 ep1) in
  let fs : Files := {[ "downloads/ep1.mp4" := zeros 10 ]} in
  (load_resume_data (save_resume_data NoFault None (mkManager 3 1048576 [t; ep2]))
                    fs (mkManager 3 1048576 [])).1
  = mkManager 3 1048576 [t].
Proof.
  intros t fs.
  refine (f_equal fst
            (save_then_load_identity None (mkManager 3 1048576 [t; ep2]) fs _)).
  constructor; [|constructor; [|constructor]].
  - intros _. vm_compute. repeat split.
  - intros H. vm_compute in H. discriminate H.
Defined.

(** X7: [cleanup_resume_data] never raises and leaves an absent manifest
    absent; once it has removed the file, [load_resume_data] restores
    nothing and returns [False], whatever had been saved. *)
Theorem cleanup_then_load (fault : WriteFault) (manifest : Manifest)
    (self self' : SmartDownloadManager) (fs : Files) (remove_fails : bool) :
  load_resume_data (cleanup_resume_data false (save_resume_data fault manifest self))
                   fs self' = (self', false) ∧
  cleanup_resume_data remove_fails None = None ∧
  cleanup_resume_data remove_fails (cleanup_resume_data remove_fails manifest)
    = cleanup_resume_data remove_fails manifest.
Proof.
  repeat split.
  - destruct (save_resume_data fault manifest self); reflexivity.
  - destruct manifest, remove_fails; reflexivity.
Qed.

(** ** More on the transport *)

Lemma start_attempt_task (fs : Files) (t : DownloadTask) :
  (start_attempt fs t).1 =
  set_status downloading
    (match (start_attempt fs t).2 with ab => t | wb => set_downloaded 0 t end).
Proof. unfold start_attempt. destruct (_ && _); reflexivity. Qed.

(** The two ways an attempt goes: it ends before the destination is
    opened, files untouched and no callback; or it opens the destination
    and runs the chunk loop. *)
Lemma download_with_progress_cases (env : Attempt) (fs : Files) (t : DownloadTask) :
  let r := download_with_progress env fs t in
  let t1 := (start_attempt fs t).1 in
  let mode := (start_attempt fs t).2 in
  (res_files r = fs ∧ res_trace r = [] ∧
   (attempt_outcome env ≠ None ∧ loop_fault env = None) ∧
   ∃ t2, (t2 = t1 ∨ ∃ response, get_result env = inr response ∧
                                 t2 = update_file_size response t1) ∧
         (res_task r = set_status paused t2 ∨ res_task r = on_exception t2))
  ∨
  (∃ response,
     get_result env = inr response ∧
     ((resp_status response = 200 ∨ resp_status response = 206) ∧
      loop_fault env = stream_end response) ∧
     let t2 := update_file_size response t1 in
     let fs0 := open_file mode (filename t2) fs in
     let w := write_chunks (chunks response) fs0 t2 [] in
     res_files r =
       match stream_end response with
       | Some fault =>
           settle_file (filename t2) (length (default [] (fs0 !! filename t2)))
                       (fault_in_write fault) (fault_on_disk fault) w.1.1
       | None => w.1.1
       end ∧
     res_trace r = w.2 ∧
     (res_task r = set_status paused w.1.2 ∧ attempt_outcome env = Some Cancelled ∨
      (∃ e, res_task r = on_exception w.1.2 ∧ attempt_outcome env = Some (Exc e)) ∨
      res_task r = set_status completed w.1.2 ∧ attempt_outcome env = None)).
Proof.
  intros r t1 mode. subst r t1 mode.
  unfold download_with_progress, attempt_outcome, loop_fault.
  destruct (start_attempt fs t) as [t1 mode]. simpl.
  destruct (get_result env) as [[|e]|response] eqn:Hget; simpl.
  { left. repeat split; [discriminate|]. exists t1. auto. }
  { left. repeat split; [discriminate|]. exists t1. auto. }
  destruct (negb _) eqn:Hst; simpl.
  { left. repeat split; [discriminate|]. exists t1. auto. }
  apply negb_false_iff, orb_true_iff in Hst. rewrite !bool_decide_eq_true in Hst.
  destruct (makedirs_error env) as [e|]; simpl.
  { left. repeat split; [discriminate|]. eauto 8. }
  destruct (open_error env) as [[|e]|]; simpl.
  { left. repeat split; [discriminate|]. eauto 8. }
  { left. repeat split; [discriminate|]. eauto 8. }
  right. exists response. split; [reflexivity|].
  split; [split; [exact Hst | reflexivity]|].
  pose proof (write_chunks_task (chunks response)
                (open_file mode (filename (update_file_size response t1)) fs)
                (update_file_size response t1) []) as Ht.
  destruct (write_chunks (chunks response)
              (open_file mode (filename (update_file_size response t1)) fs)
              (update_file_size response t1) []) as [[fs' t'] tr']. simpl in *.
  assert (Hf : filename t' = filename (update_file_size response t1))
    by (rewrite Ht; reflexivity).
  destruct (stream_end response) as [[[|e] in_write on_disk]|]; simpl;
    rewrite ?Hf; eauto 8.
Qed.

Lemma update_file_size_identity (response : Response) (t : DownloadTask) :
  same_identity t (update_file_size response t).
Proof.
  unfold update_file_size, same_identity.
  repeat (case_bool_decide || case_match); repeat split.
Qed.

Lemma same_identity_trans (a b c : DownloadTask) :
  same_identity a b → same_identity b c → same_identity a c.
Proof. unfold same_identity. intuition congruence. Qed.

Lemma on_exception_identity (t : DownloadTask) : same_identity t (on_exception t).
Proof. unfold on_exception, same_identity. case_bool_decide; repeat split. Qed.

Lemma start_attempt_identity (fs : Files) (t : DownloadTask) :
  same_identity t (start_attempt fs t).1.
Proof. unfold start_attempt. destruct (_ && _); repeat split. Qed.

Lemma open_file_other (mode : Mode) (f p : string) (fs : Files) :
  p ≠ f → open_file mode f fs !! p = fs !! p.
Proof.
  intros Hp. unfold open_file. destruct mode.
  - destruct (path_exists fs f); [reflexivity|]. apply lookup_insert_ne. congruence.
  - apply lookup_insert_ne. congruence.
Qed.

Lemma write_chunks_other (cs : list (list Byte.byte)) (p : string) :
  ∀ fs task trace,
    p ≠ filename task → (write_chunks cs fs task trace).1.1 !! p = fs !! p.
Proof.
  induction cs as [|c cs IH]; intros fs task trace Hp; simpl; [reflexivity|].
  rewrite IH by exact Hp. unfold append_file. apply lookup_insert_ne. congruence.
Qed.

Lemma attempt_filename (response : Response) (fs : Files) (t : DownloadTask) :
  filename (update_file_size response (start_attempt fs t).1) = filename t.
Proof.
  destruct (update_file_size_identity response (start_attempt fs t).1) as (_ & -> & _).
  apply (start_attempt_identity fs t).
Qed.

Lemma start_attempt_consistent (fs : Files) (t : DownloadTask) :
  downloaded t = getsize fs (filename t) →
  downloaded (start_attempt fs t).1 = getsize fs (filename t) ∧
  match (start_attempt fs t).2 with
  | ab => ∃ old, fs !! filename t = Some old
  | wb => getsize fs (filename t) = 0
  end.
Proof.
  intros Hc. unfold start_attempt, path_exists.
  assert (0 ≤ getsize fs (filename t)) by (unfold getsize; case_match; lia).
  destruct (bool_decide (0 < downloaded t)) eqn:Hd; simpl.
  - destruct (bool_decide (is_Some (fs !! filename t))) eqn:He; simpl.
    + apply bool_decide_eq_true in He as [old He]. eauto.
    + apply bool_decide_eq_false in He.
      assert (fs !! filename t = None) as Hn
          by (destruct (fs !! filename t); [destruct He; eauto | reflexivity]).
      unfold getsize. rewrite Hn. auto.
  - apply bool_decide_eq_false in Hd. split; lia.
Qed.

Lemma attempt_identity (env : Attempt) (fs : Files) (t : DownloadTask) :
  same_identity t (res_task (download_with_progress env fs t)).
Proof.
  destruct (download_with_progress_cases env fs t)
    as [(_ & _ & _ & t2 & Ht2 & Hres) | (response & _ & _ & _ & _ & Hres)].
  - assert (Hid : same_identity t t2).
    { destruct Ht2 as [-> | (response & _ & ->)]; [apply start_attempt_identity|].
      eapply same_identity_trans;
        [apply start_attempt_identity | apply update_file_size_identity]. }
    destruct Hres as [-> | ->]; [exact Hid|].
    eapply same_identity_trans; [exact Hid | apply on_exception_identity].
  - simpl in Hres. rewrite write_chunks_task in Hres.
    set (t2 := update_file_size response (start_attempt fs t).1) in *.
    set (t3 := set_downloaded _ t2) in Hres.
    assert (Hid : same_identity t t3).
    { eapply same_identity_trans; [apply start_attempt_identity|].
      eapply same_identity_trans; [apply update_file_size_identity|].
      repeat split. }
    destruct Hres as [[-> _] | [(e & -> & _) | [-> _]]]; try exact Hid.
    eapply same_identity_trans; [exact Hid | apply on_exception_identity].
Qed.

Lemma settle_file_other (f p : string) (base : nat) (in_write : list Byte.byte)
    (on_disk : nat) (fs : Files) :
  p ≠ f → settle_file f base in_write on_disk fs !! p = fs !! p.
Proof. intros Hp. unfold settle_file. apply lookup_insert_ne. congruence. Qed.

(** The counter and the size of the destination after an attempt that
    began with the counter at the size of the destination: [counted] is by
    how much the counter went up. *)
Lemma attempt_counter (env : Attempt) (fs : Files) (t : DownloadTask) :
  downloaded t = getsize fs (filename t) →
  let r := download_with_progress env fs t in
  ∃ counted : nat,
    downloaded (res_task r) = getsize fs (filename t) + Z.of_nat counted ∧
    getsize (res_files r) (filename t) =
      getsize fs (filename t) +
      match loop_fault env with
      | Some fault =>
          Z.of_nat (fault_on_disk fault `min`
                    (counted + length (fault_in_write fault)))
      | None => Z.of_nat counted
      end.
Proof.
  intros Hc r. destruct (start_attempt_consistent fs t Hc) as [Hd Hmode].
  destruct (download_with_progress_cases env fs t)
    as [(Hfs & _ & [_ Hlf] & t2 & Ht2 & Hres)
       | (response & Hget & [Hst Hlf] & Hfs & _ & Hres)];
    fold r in Hfs, Hres.
  - exists 0%nat. rewrite Hfs, Hlf.
    assert (downloaded t2 = downloaded (start_attempt fs t).1) as Hd2.
    { destruct Ht2 as [-> | (response & _ & ->)];
        [reflexivity | apply update_file_size_downloaded]. }
    destruct Hres as [-> | ->]; [simpl | rewrite (proj2 (on_exception_sizes t2))];
      split; lia.
  - set (t2 := update_file_size response (start_attempt fs t).1) in *.
    assert (Hf2 : filename t2 = filename t) by apply attempt_filename.
    assert (Hd2 : downloaded t2 = getsize fs (filename t)).
    { subst t2. rewrite update_file_size_downloaded. exact Hd. }
    assert (Hopen : ∃ old, open_file (start_attempt fs t).2 (filename t2) fs
                             !! filename t2 = Some old ∧
                           Z.of_nat (length old) = downloaded t2).
    { rewrite Hf2. unfold open_file.
      destruct (start_attempt fs t).2.
      - destruct Hmode as [old Hold]. unfold path_exists.
        rewrite bool_decide_eq_true_2 by (rewrite Hold; eauto).
        exists old. split; [exact Hold|]. rewrite Hd2. unfold getsize.
        rewrite Hold. reflexivity.
      - exists []. rewrite lookup_insert_eq. split; [reflexivity|].
        rewrite Hd2, Hmode. reflexivity. }
    destruct Hopen as (old & Hold & Hlen).
    pose proof (write_chunks_files (chunks response) _ t2 [] old Hold) as Hw.
    pose proof (write_chunks_task (chunks response)
                  (open_file (start_attempt fs t).2 (filename t2) fs) t2 []) as Ht.
    simpl in Hfs, Hres. exists (length (concat (chunks response))).
    split.
    { destruct Hres as [[-> _] | [(e & -> & _) | [-> _]]];
        [simpl | rewrite (proj2 (on_exception_sizes _)) | simpl];
        rewrite Ht; simpl; lia. }
    rewrite Hfs, Hlf. unfold getsize at 1. rewrite <- Hf2.
    assert (Hg : getsize fs (filename t2) = Z.of_nat (length old))
      by (rewrite Hf2; lia).
    rewrite Hg.
    destruct (stream_end response) as [fault|].
    + unfold settle_file. rewrite lookup_insert_eq, Hold, Hw. simpl.
      rewrite length_take, !length_app. lia.
    + rewrite Hw, length_app. lia.
Qed.

(** X8: the counter and the disk.  Take an attempt that begins with
    [downloaded] at the size of the destination (0 for a missing file).
    When nothing cuts the chunk loop short (the attempt completes, or it
    fails or is cancelled before the destination is opened), [downloaded]
    is again the size of the destination afterwards.  When the loop is cut
    short, it is so exactly when the bytes of the attempt that reached the
    file are those counted; in general the file keeps the bytes it had,
    and is ahead of the counter by no more than the chunk whose write was
    in flight (it may be behind: buffered bytes can be lost). *)
Theorem downloaded_matches_destination
    (env : Attempt) (fs : Files) (t : DownloadTask) :
  downloaded t = getsize fs (filename t) →
  let r := download_with_progress env fs t in
  let size := getsize (res_files r) (filename (res_task r)) in
  (loop_fault env = None → downloaded (res_task r) = size) ∧
  (∀ fault, loop_fault env = Some fault →
     (downloaded (res_task r) = size ↔
      downloaded (res_task r) - downloaded t
      = Z.of_nat (fault_on_disk fault
                  `min` (Z.to_nat (downloaded (res_task r) - downloaded t)
                         + length (fault_in_write fault)))) ∧
     size ≤ downloaded (res_task r) + Z.of_nat (length (fault_in_write fault))) ∧
  getsize fs (filename t) ≤ size ∧
  downloaded t ≤ downloaded (res_task r).
Proof.
  intros Hc r size. subst size.
  destruct (attempt_identity env fs t) as (_ & Hf & _). fold r in Hf.
  destruct (attempt_counter env fs t Hc) as (counted & Hd & Hsz).
  fold r in Hd, Hsz. rewrite Hf, Hd, Hsz, Hc.
  repeat split.
  - intros ->. reflexivity.
  - rewrite H. intros E. lia.
  - rewrite H. intros E. lia.
  - rewrite H. lia.
  - destruct (loop_fault env); lia.
  - lia.
Qed.

Lemma downloaded_matches_destination_witness :
  let env := mkAttempt (inr (mkResponse 206 (Some 9) [zeros 4; zeros 2]
                               (Some (mkFault Cancelled (zeros 3) 9))))
                       None None in
  let fs : Files := {[ "downloads/ep1.mp4" := zeros 5 ]} in
  let r := download_with_progress env fs ep1_recorded in
  getsize (res_files r) (filename (res_task r))
  ≤ downloaded (res_task r) + 3.
Proof.
  intros env fs.
  exact (proj2 (proj1 (proj2 (downloaded_matches_destination env fs ep1_recorded
                                eq_refl))
                      (mkFault Cancelled (zeros 3) 9) eq_refl)).
Defined.

(** What an attempt does to the manifest, and when it re-raises
    [CancelledError]. *)
Lemma attempt_manifest (env : Attempt) (fs : Files) (t : DownloadTask) :
  let r := download_with_progress env fs t in
  (∀ fault self i manifest,
     res_manifest r fault self i manifest =
       match attempt_outcome env with
       | Some Cancelled =>
           save_resume_data fault manifest
             (with_tasks (<[i := res_task r]> (download_tasks self)) self)
       | _ => manifest
       end) ∧
  (res_cancelled r = true ↔ attempt_outcome env = Some Cancelled).
Proof.
  intros r. subst r. unfold download_with_progress, attempt_outcome.
  destruct (start_attempt fs t) as [t1 mode].
  destruct (get_result env) as [[|e]|response]; simpl;
    [split; [reflexivity | split; auto]
    |split; [reflexivity | split; [discriminate | intros [=]]]|].
  destruct (negb _); simpl;
    [split; [reflexivity | split; [discriminate | intros [=]]]|].
  destruct (makedirs_error env) as [e|]; simpl;
    [split; [reflexivity | split; [discriminate | intros [=]]]|].
  destruct (open_error env) as [[|e]|]; simpl;
    [split; [reflexivity | split; auto]
    |split; [reflexivity | split; [discriminate | intros [=]]]|].
  destruct (write_chunks _ _ _ _) as [[fs' t'] tr'].
  destruct (stream_end response) as [[[|e] in_write on_disk]|]; simpl;
    [split; [reflexivity | split; auto]
    |split; [reflexivity | split; [discriminate | intros [=]]]
    |split; [reflexivity | split; [discriminate | intros [=]]]].
Qed.

(** X9: what an attempt touches.  It writes to no destination file but its
    own; and it rewrites the resume manifest exactly when it is cancelled:
    then [save_resume_data] runs for the manager with this task Paused,
    and the manifest is what that call leaves (all of the snapshot, a
    truncated one, or the old content when the manifest cannot be
    opened); otherwise the manifest is left as it was. *)
Theorem other_files_untouched
    (env : Attempt) (fs : Files) (t : DownloadTask) :
  let r := download_with_progress env fs t in
  (∀ p, p ≠ filename t → res_files r !! p = fs !! p) ∧
  (∀ fault self i manifest,
     res_manifest r fault self i manifest =
       match attempt_outcome env with
       | Some Cancelled =>
           save_resume_data fault manifest
             (with_tasks (<[i := res_task r]> (download_tasks self)) self)
       | _ => manifest
       end) ∧
  (res_cancelled r = true ↔ attempt_outcome env = Some Cancelled).
Proof.
  intros r. split; [|apply attempt_manifest].
  intros p Hp.
  destruct (download_with_progress_cases env fs t)
    as [(Hfs & _) | (response & _ & _ & Hfs & _)]; fold r in Hfs.
  - rewrite Hfs. reflexivity.
  - simpl in Hfs. rewrite Hfs.
    pose proof (attempt_filename response fs t) as Hf2.
    assert (Hother : (write_chunks (chunks response)
                        (open_file (start_attempt fs t).2
                           (filename (update_file_size response (start_attempt fs t).1))
                           fs)
                        (update_file_size response (start_attempt fs t).1) []).1.1
                     !! p = fs !! p).
    { rewrite write_chunks_other by (rewrite Hf2; exact Hp).
      apply open_file_other. rewrite Hf2. exact Hp. }
    destruct (stream_end response) as [fault|]; [|exact Hother].
    rewrite settle_file_other by (rewrite Hf2; exact Hp). exact Hother.
Qed.

Lemma other_files_untouched_witness :
  let env := mkAttempt (inr (mkResponse 200 (Some 4) [zeros 4]
                               (Some (mkFault Cancelled [] 4))))
                       None None in
  let fs : Files := {[ "downloads/ep2.mp4" := zeros 7 ]} in
  let r := download_with_progress env fs ep1 in
  res_files r !! "downloads/ep2.mp4" = Some (zeros 7) ∧
  res_manifest r NoFault (mkManager 3 1048576 [ep1; ep2]) 0 None
  = Some [ChOpen;
          ChEntry (EntryTask
                     (set_file_size 4 (set_downloaded 4 (set_status paused ep1))));
          ChClose].
Proof.
  intros env fs r.
  destruct (other_files_untouched env fs ep1) as (Hfiles & Hman & _).
  fold r in Hfiles, Hman. split.
  - rewrite (Hfiles "downloads/ep2.mp4") by discriminate. reflexivity.
  - rewrite Hman. vm_compute. reflexivity.
Defined.

(** X10: an attempt never changes the URL, the destination, the headers,
    the episode number and title or the retry budget of its task; it
    raises the retry counter by at most one and never lowers it; and an
    expected size that is already known (non-zero) is never overwritten. *)
Theorem attempt_keeps_identity (env : Attempt) (fs : Files) (t : DownloadTask) :
  let r := download_with_progress env fs t in
  same_identity t (res_task r) ∧
  retry_count t ≤ retry_count (res_task r) ≤ retry_count t + 1 ∧
  (file_size t = 0 ∨ file_size (res_task r) = file_size t).
Proof.
  intros r. split; [apply attempt_identity|]. split.
  { destruct (download_with_progress_fields env fs t) as [_ Hf]. fold r in Hf.
    destruct (attempt_outcome env) as [[|e]|]; destruct Hf as [H1 H2]; lia. }
  destruct (Z.eq_dec (file_size t) 0) as [Hz | Hnz]; [left; exact Hz | right].
  assert (Hsz : ∀ response u, file_size u = file_size t →
                  file_size (update_file_size response u) = file_size t).
  { intros response u Hu. unfold update_file_size.
    rewrite bool_decide_eq_false_2 by congruence. exact Hu. }
  assert (Hs1 : file_size (start_attempt fs t).1 = file_size t)
    by (unfold start_attempt; destruct (_ && _); reflexivity).
  destruct (download_with_progress_cases env fs t)
    as [(_ & _ & _ & t2 & Ht2 & Hres) | (response & _ & _ & _ & _ & Hres)];
    fold r in Hres.
  - assert (Hfs : file_size t2 = file_size t).
    { destruct Ht2 as [-> | (response & _ & ->)]; [exact Hs1 | apply Hsz, Hs1]. }
    destruct Hres as [-> | ->]; [exact Hfs|].
    rewrite (proj1 (on_exception_sizes t2)). exact Hfs.
  - simpl in Hres. rewrite write_chunks_task in Hres.
    destruct Hres as [[-> _] | [(e & -> & _) | [-> _]]];
      rewrite ?(proj1 (on_exception_sizes _)); simpl; apply Hsz, Hs1.
Qed.

Lemma snapshots_length (cs : list (list Byte.byte)) :
  ∀ task, length (snapshots cs task) = length cs.
Proof. induction cs as [|c cs IH]; intros task; simpl; [reflexivity | now rewrite IH]. Qed.

Lemma start_attempt_mode (fs : Files) (t : DownloadTask) :
  match (start_attempt fs t).2 with
  | ab => 0 < downloaded t ∧ (∃ old, fs !! filename t = Some old) ∧
          downloaded (start_attempt fs t).1 = downloaded t
  | wb => downloaded (start_attempt fs t).1 = 0
  end.
Proof.
  unfold start_attempt, path_exists.
  destruct (bool_decide (0 < downloaded t)) eqn:Hd; simpl; [|reflexivity].
  destruct (bool_decide (is_Some (fs !! filename t))) eqn:He; simpl; [|reflexivity].
  apply bool_decide_eq_true in Hd, He. destruct He as [old He]. eauto.
Qed.

Lemma loop_fault_outcome (env : Attempt) :
  attempt_outcome env = None → loop_fault env = None.
Proof.
  unfold attempt_outcome, loop_fault.
  destruct (get_result env) as [r|response]; [discriminate|].
  destruct (negb _); [discriminate|].
  destruct (makedirs_error env); [discriminate|].
  destruct (open_error env); [discriminate|].
  destruct (stream_end response); [discriminate | reflexivity].
Qed.

(** An attempt that runs to the end of the body. *)
Lemma completed_attempt_result
    (env : Attempt) (fs : Files) (t : DownloadTask) (response : Response) :
  get_result env = inr response →
  attempt_outcome env = None →
  let r := download_with_progress env fs t in
  let t2 := update_file_size response (start_attempt fs t).1 in
  res_task r =
    set_status completed
      (set_downloaded (downloaded t2 + Z.of_nat (length (concat (chunks response)))) t2) ∧
  res_files r !! filename t =
    Some (match (start_attempt fs t).2 with
          | ab => default [] (fs !! filename t)
          | wb => []
          end ++ concat (chunks response)) ∧
  res_trace r = snapshots (chunks response) t2.
Proof.
  intros Hget Hout r t2.
  destruct (download_with_progress_cases env fs t)
    as [(_ & _ & [Hne _] & _) | (response' & Hget' & [_ Hlf] & Hfs & Htr & Hres)];
    [destruct (Hne Hout)|].
  rewrite Hget in Hget'. injection Hget' as <-. fold r t2 in Hfs, Htr, Hres.
  rewrite (loop_fault_outcome env Hout) in Hlf. rewrite <- Hlf in Hfs.
  simpl in Hfs, Htr, Hres.
  pose proof (attempt_filename response fs t) as Hf2. fold t2 in Hf2.
  rewrite write_chunks_task in Hres. rewrite write_chunks_trace in Htr.
  split; [|split; [|exact Htr]].
  - destruct Hres as [[_ H] | [(e & _ & H) | [H _]]]; [congruence | congruence | exact H].
  - rewrite Hfs, <- Hf2. apply write_chunks_files. rewrite Hf2.
    pose proof (start_attempt_mode fs t) as Hm. unfold open_file.
    destruct (start_attempt fs t).2.
    + destruct Hm as (_ & [old Hold] & _). unfold path_exists.
      rewrite bool_decide_eq_true_2 by (rewrite Hold; eauto).
      rewrite Hold. reflexivity.
    + apply lookup_insert_eq.
Qed.

(** X11: when an attempt runs to the end of the body, the task is
    Completed, every chunk was reported by one progress callback, the
    counter went up by the length of the body, and the destination holds
    the body, after the content it had when the attempt resumed, or alone
    when the attempt started from offset 0. *)
Theorem completed_attempt_content
    (env : Attempt) (fs : Files) (t : DownloadTask) (response : Response) :
  get_result env = inr response →
  attempt_outcome env = None →
  let r := download_with_progress env fs t in
  status (res_task r) = completed ∧
  res_files r !! filename t =
    Some (match (start_attempt fs t).2 with
          | ab => default [] (fs !! filename t)
          | wb => []
          end ++ concat (chunks response)) ∧
  downloaded (res_task r) =
    downloaded (start_attempt fs t).1 + Z.of_nat (length (concat (chunks response))) ∧
  length (res_trace r) = length (chunks response).
Proof.
  intros Hget Hout r.
  destruct (completed_attempt_result env fs t response Hget Hout) as (Ht & Hf & Htr).
  fold r in Ht, Hf, Htr. rewrite Ht, Htr, snapshots_length. simpl.
  rewrite update_file_size_downloaded. auto.
Qed.

Lemma completed_attempt_content_witness :
  let env := mkAttempt (inr (mkResponse 200 (Some 6) [zeros 4; zeros 2] None))
                       None None in
  let r := download_with_progress env ∅ ep1 in
  status (res_task r) = completed ∧
  res_files r !! "downloads/ep1.mp4" = Some (zeros 6).
Proof.
  intros env.
  destruct (completed_attempt_content env ∅ ep1
              (mkResponse 200 (Some 6) [zeros 4; zeros 2] None) eq_refl eq_refl)
    as (Hs & Hf & _).
  split; [exact Hs | exact Hf].
Defined.

(** X12: resuming works when the server honours the range.  For a task
    whose counter is the non-zero size of its destination and whose total
    size is not known yet, a 206 response that announces the remaining
    length and delivers it leaves the destination with the old bytes
    followed by the body, the task Completed, and [downloaded] equal to
    [file_size], the old size plus the announced length. *)
Theorem resumed_206_completes
    (env : Attempt) (fs : Files) (t : DownloadTask) (response : Response)
    (old : list Byte.byte) (n : Z) :
  fs !! filename t = Some old →
  downloaded t = Z.of_nat (length old) →
  0 < downloaded t →
  file_size t = 0 →
  get_result env = inr response →
  resp_status response = 206 →
  content_length response = Some n →
  Z.of_nat (length (concat (chunks response))) = n →
  attempt_outcome env = None →
  let r := download_with_progress env fs t in
  res_files r !! filename t = Some (old ++ concat (chunks response)) ∧
  status (res_task r) = completed ∧
  file_size (res_task r) = Z.of_nat (length old) + n ∧
  downloaded (res_task r) = file_size (res_task r).
Proof.
  intros Hold Hd Hpos Hsz Hget H206 Hcl Hlen Hout r.
  destruct (completed_attempt_result env fs t response Hget Hout) as (Ht & Hf & _).
  fold r in Ht, Hf.
  assert (Hstart : start_attempt fs t = (set_status downloading t, ab)).
  { unfold start_attempt, path_exists.
    rewrite bool_decide_eq_true_2 by exact Hpos.
    rewrite bool_decide_eq_true_2 by (rewrite Hold; eauto). reflexivity. }
  rewrite Hstart in Ht, Hf. simpl in Ht, Hf. rewrite Hold in Hf. simpl in Hf.
  assert (Hup : update_file_size response (set_status downloading t)
                = set_file_size (n + downloaded t) (set_status downloading t)).
  { unfold update_file_size. simpl.
    rewrite bool_decide_eq_true_2 by exact Hsz. rewrite Hcl.
    rewrite bool_decide_eq_true_2 by exact H206. reflexivity. }
  rewrite Hup in Ht. rewrite Ht. simpl. repeat split; [exact Hf | lia | lia].
Qed.

Lemma resumed_206_completes_witness :
  let env := mkAttempt (inr (mkResponse 206 (Some 6) [zeros 4; zeros 2] None))
                       None None in
  let fs : Files := {[ "downloads/ep1.mp4" := zeros 5 ]} in
  let r := download_with_progress env fs ep1_recorded in
  res_files r !! "downloads/ep1.mp4" = Some (zeros 11) ∧
  downloaded (res_task r) = 11 ∧ file_size (res_task r) = 11.
Proof.
  intros env fs.
  destruct (resumed_206_completes env fs ep1_recorded
              (mkResponse 206 (Some 6) [zeros 4; zeros 2] None) (zeros 5) 6)
    as (Hf & _ & Hsz & Hd); try reflexivity.
  split; [exact Hf|]. split; [rewrite Hd; exact Hsz | exact Hsz].
Defined.



(** ** More on download_all *)

Lemma eligible_retry_first (t : DownloadTask) :
  eligible_retry t = true → eligible_first t = true.
Proof.
  rewrite eligible_retry_spec, eligible_first_spec. intros [H _]. auto.
Qed.

(** What a finished run does to the task at one position, given what the
    first round and the retry rounds do to it. *)
Lemma download_all_index (oracle : nat → nat → Attempt) (i : nat)
    (Q0 Q : DownloadTask → Prop) :
  (∀ t, Q0 t → eligible_first t = false → Q t) →
  (∀ t fs, Q0 t → eligible_first t = true →
           Q (res_task (download_with_progress (oracle O i) fs t))) →
  (∀ r t fs, Q t → eligible_retry t = true →
             Q (res_task (download_with_progress (oracle r i) fs t))) →
  ∀ fuel fs self fs' ts' evs t,
    download_tasks self !! i = Some t → Q0 t →
    download_all fuel oracle fs self = Finished fs' ts' evs →
    ∃ t', ts' !! i = Some t' ∧ Q t' ∧ eligible_retry t' = false.
Proof.
  intros Hskip Hfirst Hretry fuel fs self fs' ts' evs t Hi HQ Hrun.
  unfold download_all in Hrun.
  destruct (download_tasks self) as [|t0 ts0] eqn:Ets; [discriminate Hi|].
  rewrite <- Ets in Hrun, Hi. clear Ets t0 ts0.
  set (ts := download_tasks self) in *.
  assert (Hrun' : (if bool_decide (max_concurrent self < 0) then SemaphoreValueError
                   else if existsb eligible_first ts
                        then if bool_decide (max_concurrent self = 0) then NeverReturns
                             else let '(fs1, ts1, evs0) :=
                                    run_tasks eligible_first (oracle O) [] fs ts in
                                  retry_rounds fuel oracle 1 fs1 ts1 evs0
                        else Finished fs ts []) = Finished fs' ts' evs).
  { destruct ts; [discriminate Hi | exact Hrun]. }
  clear Hrun. destruct (bool_decide (max_concurrent self < 0)); [discriminate Hrun'|].
  destruct (existsb eligible_first ts) eqn:Efirst.
  - destruct (bool_decide (max_concurrent self = 0)); [discriminate Hrun'|].
    destruct (run_tasks_spec eligible_first (oracle O) ts [] fs)
      as (out & Hout & _ & Hk).
    destruct (run_tasks eligible_first (oracle O) [] fs ts) as [[fs1 ts1] evs1].
    simpl in Hout. subst ts1. destruct (Hk i t Hi) as (fs_i & Hti). simpl in Hti.
    destruct (retry_rounds_index oracle i (λ _ u, Q u))
      with (fuel := fuel) (round := 1%nat) (fs := fs1) (ts := out) (evs := evs1)
           (fs' := fs') (ts' := ts') (evs' := evs)
           (t := if eligible_first t
                 then res_task (download_with_progress (oracle O i) fs_i t) else t)
      as (t' & _ & Ht' & HQ' & Hne); eauto.
    destruct (eligible_first t) eqn:E; [apply Hfirst | apply Hskip]; assumption.
  - injection Hrun' as <- <- <-. exists t.
    pose proof (existsb_false_lookup _ _ Efirst i t Hi) as E.
    split; [exact Hi|]. split; [apply Hskip; assumption|].
    destruct (eligible_retry t) eqn:E'; [|reflexivity].
    apply eligible_retry_first in E'. congruence.
Qed.

Lemma download_all_length (oracle : nat → nat → Attempt) (fuel : nat) (fs : Files)
    (self : SmartDownloadManager) (fs' : Files) (ts' : list DownloadTask)
    (evs : list Event) :
  download_all fuel oracle fs self = Finished fs' ts' evs →
  length ts' = length (download_tasks self).
Proof.
  unfold download_all. intros Hrun.
  destruct (download_tasks self) as [|t0 ts0] eqn:Ets;
    [injection Hrun as <- <- <-; reflexivity|].
  destruct (bool_decide (max_concurrent self < 0)); [discriminate Hrun|].
  destruct (existsb eligible_first (t0 :: ts0)).
  - destruct (bool_decide (max_concurrent self = 0)); [discriminate Hrun|].
    destruct (run_tasks_spec eligible_first (oracle O) (t0 :: ts0) [] fs)
      as (out & Hout & Hlen & _).
    destruct (run_tasks eligible_first (oracle O) [] fs (t0 :: ts0))
      as [[fs1 ts1] evs1].
    simpl in Hout. subst ts1.
    rewrite (retry_rounds_length _ _ _ _ _ _ _ _ _ Hrun). exact Hlen.
  - injection Hrun as <- <- <-. reflexivity.
Qed.

(** What an attempt leaves of a task: Completed, Paused, Failed, or
    Pending with budget left. *)
Lemma attempt_status (env : Attempt) (fs : Files) (t : DownloadTask) :
  let t' := res_task (download_with_progress env fs t) in
  status t' = completed ∨ status t' = failed ∨ status t' = paused ∨
  eligible_retry t' = true.
Proof.
  intros t'. destruct (download_with_progress_fields env fs t) as [Hm Hf].
  fold t' in Hm, Hf.
  destruct (attempt_outcome env) as [[|e]|].
  - destruct Hf as [-> _]. auto.
  - destruct Hf as [Hr Hs]. case_bool_decide as Hlt.
    + right. right. right. apply eligible_retry_spec. split; [exact Hs | lia].
    + auto.
  - destruct Hf as [-> _]. auto.
Qed.

Lemma attempt_retry_mono (env : Attempt) (fs : Files) (t : DownloadTask) :
  retry_count t ≤ retry_count (res_task (download_with_progress env fs t)).
Proof.
  destruct (download_with_progress_fields env fs t) as [_ Hf].
  destruct (attempt_outcome env) as [[|e]|]; destruct Hf as [H1 H2]; lia.
Qed.

Lemma same_identity_refl (t : DownloadTask) : same_identity t t.
Proof. repeat split. Qed.

Lemma count_status_none (st : Status) (ts : list DownloadTask) :
  Forall (λ t, status t ≠ st) ts → count_status st ts = 0.
Proof.
  induction 1 as [|t ts Ht _ IH]; [reflexivity|].
  rewrite count_status_cons, IH, decide_False by exact Ht. reflexivity.
Qed.

(** X14: when a run of [download_all] finishes, the task list has the same
    tasks at the same positions (same URL, destination, headers, episode
    and budget, retry counter not lowered); every task that was Pending or
    Paused at the start is Completed, Failed or Paused; every other task is
    exactly as it was; so no task is Pending and the summary reports 0
    under "pending". *)
Theorem finished_run_outcome
    (oracle : nat → nat → Attempt) (fuel : nat) (fs : Files)
    (self : SmartDownloadManager) (fs' : Files) (ts' : list DownloadTask)
    (evs : list Event) :
  download_all fuel oracle fs self = Finished fs' ts' evs →
  length ts' = length (download_tasks self) ∧
  (∀ i t, download_tasks self !! i = Some t →
     ∃ t', ts' !! i = Some t' ∧ same_identity t t' ∧
           retry_count t ≤ retry_count t' ∧
           if eligible_first t
           then status t' = completed ∨ status t' = failed ∨ status t' = paused
           else t' = t) ∧
  Forall (λ t', status t' ≠ pending) ts' ∧
  get_download_summary (with_tasks ts' self) !! "pending" = Some 0.
Proof.
  intros Hrun.
  pose proof (download_all_length _ _ _ _ _ _ _ Hrun) as Hlen.
  assert (Hidx : ∀ i t, download_tasks self !! i = Some t →
            ∃ t', ts' !! i = Some t' ∧ same_identity t t' ∧
                  retry_count t ≤ retry_count t' ∧
                  if eligible_first t
                  then status t' = completed ∨ status t' = failed ∨ status t' = paused
                  else t' = t).
  { intros i t Hi.
    destruct (download_all_index oracle i (λ u, u = t)
                (λ u, same_identity t u ∧ retry_count t ≤ retry_count u ∧
                      if eligible_first t
                      then status u = completed ∨ status u = failed ∨
                           status u = paused ∨ eligible_retry u = true
                      else u = t))
      with (fuel := fuel) (fs := fs) (self := self) (fs' := fs') (ts' := ts')
           (evs := evs) (t := t)
      as (t' & Ht' & (Hid & Hr & Hst) & Hne); auto.
    - intros u -> E. rewrite E. split; [apply same_identity_refl|]. split; [lia | reflexivity].
    - intros u f -> E. rewrite E. split; [apply attempt_identity|].
      split; [apply attempt_retry_mono | apply attempt_status].
    - intros r u f (Hid & Hr & Hst) E.
      split; [eapply same_identity_trans; [exact Hid | apply attempt_identity]|].
      split; [pose proof (attempt_retry_mono (oracle r i) f u); lia|].
      destruct (eligible_first t) eqn:Et; [apply attempt_status|].
      subst u. apply eligible_retry_first in E. congruence.
    - exists t'. split; [exact Ht'|]. split; [exact Hid|]. split; [exact Hr|].
      destruct (eligible_first t); [|exact Hst].
      destruct Hst as [H | [H | [H | H]]]; auto. congruence. }
  assert (Hnp : Forall (λ t', status t' ≠ pending) ts').
  { apply Forall_lookup. intros i t' Hi'.
    destruct (download_tasks self !! i) as [t|] eqn:Hi.
    - destruct (Hidx i t Hi) as (t'' & Ht'' & _ & _ & Hst).
      rewrite Hi' in Ht''. injection Ht'' as <-.
      destruct (eligible_first t) eqn:E.
      + destruct Hst as [-> | [-> | ->]]; discriminate.
      + subst t'. intros Hp. unfold eligible_first in E. rewrite Hp in E.
        discriminate E.
    - apply lookup_ge_None in Hi. apply lookup_lt_Some in Hi'. lia. }
  repeat split; try assumption.
  unfold get_download_summary. simpl. rewrite fold_summary_lookup.
  unfold summary_init. rewrite lookup_insert_ne by discriminate.
  match goal with |- context [?m !! "pending"] =>
    assert (E : m !! "pending" = Some 0) by (vm_compute; reflexivity);
    rewrite E end.
  change (count_key "pending") with (count_key (status_str pending)).
  rewrite count_key_status, count_status_none by exact Hnp. reflexivity.
Qed.

Lemma finished_run_outcome_witness :
  let oracle := λ (round i : nat),
    match round with
    | O => mkAttempt (inl (Exc Timeout)) None None
    | _ => mkAttempt (inr (mkResponse 200 (Some 4) [zeros 4] None)) None None
    end in
  ∃ fs' ts' evs,
    download_all 3 oracle ∅ (mkManager 2 1048576 [ep1; ep2]) = Finished fs' ts' evs ∧
    Forall (λ t', status t' ≠ pending) ts'.
Proof.
  intros oracle. eexists _, _, _. split; [vm_compute; reflexivity|].
  eapply (finished_run_outcome oracle 3 ∅ (mkManager 2 1048576 [ep1; ep2])).
  vm_compute. reflexivity.
Defined.

Lemma spawn_tasks (sel : DownloadTask → bool) (ts : list DownloadTask) :
  (map (spawn sel) ts).*1 = ts.
Proof. induction ts as [|t ts IH]; simpl; [reflexivity | f_equal; exact IH]. Qed.

Lemma respawn_tasks (sel : DownloadTask → bool) (l : list Slot) :
  (map (λ s : Slot, spawn sel s.1) l).*1 = l.*1.
Proof. induction l as [|x l IH]; simpl; [reflexivity | f_equal; exact IH]. Qed.

(** X15: with a concurrency limit of 0 the semaphore never lets a
    coroutine in: whatever steps are taken, no transport invocation
    starts, no task changes and no file is written. *)
Theorem zero_limit_never_downloads
    (self : SmartDownloadManager) (fs : Files) (s0 s : RunState) :
  max_concurrent self = 0 →
  download_all_start fs self = Some s0 →
  reachable s0 s →
  (slots s).*1 = download_tasks self ∧ run_files s = fs ∧
  sem_value s = 0 ∧ count_inside s = 0.
Proof.
  intros Hzero Hstart Hreach.
  unfold download_all_start in Hstart.
  destruct (download_tasks self) as [|t0 ts0] eqn:Ets; [discriminate Hstart|].
  case_bool_decide; [discriminate Hstart|]. injection Hstart as <-.
  rewrite Hzero in Hreach.
  assert (Hinv : (slots s).*1 = t0 :: ts0 ∧ run_files s = fs ∧ sem_value s = 0 ∧
                 Forall (λ sl : Slot, inside sl.2 = false) (slots s)).
  { induction Hreach as [|s s' _ IH Hstep].
    - split; [apply (spawn_tasks eligible_first (t0 :: ts0))|].
      repeat split. apply (spawn_outside eligible_first (t0 :: ts0)).
    - destruct IH as (Hts & Hfs & Hsem & Hout).
      destruct Hstep; simpl in *;
        try (rewrite Forall_app, Forall_cons in Hout;
             destruct Hout as (_ & Hx & _); simpl in Hx; discriminate Hx);
        try lia.
      + (* cancelled while waiting *)
        repeat split; try assumption.
        * rewrite fmap_app in *. simpl in *. exact Hts.
        * rewrite Forall_app, Forall_cons in *. simpl. tauto.
      + (* next round *)
        repeat split; try assumption.
        * rewrite <- Hts. apply respawn_tasks.
        * apply Forall_map, Forall_true. intros [u pc]. unfold spawn. simpl.
          destruct (eligible_retry u); reflexivity. }
  destruct Hinv as (Hts & Hfs & Hsem & Hout).
  repeat split; try assumption.
  destruct s as [sem sl f]. apply count_inside_zero. exact Hout.
Qed.

Lemma zero_limit_never_downloads_witness :
  let s := mkRun 0 [(ep1, Done); (ep2, WaitSem)] ∅ in
  (slots s).*1 = [ep1; ep2] ∧ run_files s = ∅ ∧ sem_value s = 0 ∧ count_inside s = 0.
Proof.
  intros s.
  apply (zero_limit_never_downloads (mkManager 0 1048576 [ep1; ep2]) ∅
           (mkRun 0 [(ep1, WaitSem); (ep2, WaitSem)] ∅) s);
    [reflexivity | reflexivity |].
  apply reachable_one, (step_cancel_waiting 0 [] ep1 [(ep2, WaitSem)] ∅).
Defined.

(** ** More on the progress tracker *)

Lemma display_progress_some (store : list DownloadTask) (tr : AdvancedProgressTracker) :
  tasks tr ≠ ∅ → ∃ l, display_progress store tr = Some l.
Proof.
  intros Hne. unfold display_progress.
  rewrite bool_decide_eq_false_2 by exact Hne. eauto.
Qed.

(** One callback: either nothing is displayed and the time of the last
    display stays, or a line is displayed, at least half a second after
    the last one, and the time of the last display becomes [now]. *)
Lemma update_task_progress_cases (now : Q) (ev : Event) (tr : AdvancedProgressTracker) :
  ((update_task_progress now ev tr).2 = None ∧
   last_update (update_task_progress now ev tr).1 = last_update tr) ∨
  (∃ l, (update_task_progress now ev tr).2 = Some l ∧
        (1 # 2 <= now - last_update tr)%Q ∧
        last_update (update_task_progress now ev tr).1 = now).
Proof.
  unfold update_task_progress. destruct ev as [i store].
  destruct (store !! i) as [task|]; [|left; auto]. simpl.
  destruct (Qlt_le_dec (now - last_update tr) (1 # 2)) as [Hlt | Hle]; [left; auto|].
  right. simpl.
  destruct (display_progress_some store
              (mkTracker (<[filename task := i]> (tasks tr)) (start_time tr) now))
    as [l Hl]; [apply insert_non_empty|].
  exists l. auto.
Qed.

(** X16: progress lines are rate-limited.  Whatever the callbacks and
    their times, every displayed line comes at least half a second after
    the one displayed before it (the first, after the tracker's initial
    [last_update]); the lines are those of [progress_lines]; and a callback
    of a task of the manager that arrives half a second or more after the
    last display is always displayed. *)
Theorem progress_lines_rate_limited
    (evs : list (Q * Event)) (tr : AdvancedProgressTracker) :
  spaced (last_update tr) (progress_log evs tr).*1 ∧
  (progress_log evs tr).*2 = progress_lines evs tr ∧
  ∀ now i store task,
    store !! i = Some task →
    (1 # 2 <= now - last_update tr)%Q →
    ∃ l, (update_task_progress now (i, store) tr).2 = Some l.
Proof.
  split; [|split].
  - revert tr. induction evs as [|[now ev] evs IH]; intros tr; simpl; [exact I|].
    destruct (update_task_progress_cases now ev tr)
      as [[Hn Hl] | (l & Hs & Hgap & Hl)];
      destruct (update_task_progress now ev tr) as [tr' line]; simpl in *; subst line.
    + rewrite <- Hl. apply IH.
    + simpl. split; [exact Hgap|]. rewrite <- Hl at 1. apply IH.
  - revert tr. induction evs as [|[now ev] evs IH]; intros tr; simpl; [reflexivity|].
    destruct (update_task_progress now ev tr) as [tr' [l|]]; simpl;
      [f_equal|]; apply IH.
  - intros now i store task Hi Hgap. unfold update_task_progress. rewrite Hi.
    simpl.
    destruct (Qlt_le_dec (now - last_update tr) (1 # 2)) as [Hlt | Hle].
    + simpl in Hlt. destruct (Qlt_not_le _ _ Hlt Hgap).
    + simpl. apply display_progress_some, insert_non_empty.
Qed.

Lemma tracked_Forall (P : DownloadTask → Prop) (store : list DownloadTask)
    (kvs : list (string * nat)) :
  Forall P store → Forall P (omap (λ kv : string * nat, store !! kv.2) kvs).
Proof.
  intros HP. induction kvs as [|[k j] kvs IH]; simpl; [constructor|].
  destruct (store !! j) as [t|] eqn:Hj; [|exact IH].
  constructor; [|exact IH]. exact (proj1 (Forall_lookup _ _) HP j t Hj).
Qed.

Lemma omap_length_le {A B : Type} (f : A → option B) (l : list A) :
  (length (omap f l) ≤ length l)%nat.
Proof.
  induction l as [|x l IH]; simpl; [lia|].
  destruct (f x); simpl; [apply le_n_S | apply le_S]; exact IH.
Qed.

Lemma progress_fraction_range (a b : Z) :
  0 ≤ a ≤ b →
  (0 <= progress_fraction a b * 100)%Q ∧ (progress_fraction a b * 100 <= 100)%Q.
Proof.
  intros Hab. unfold progress_fraction. case_bool_decide as Hb.
  - destruct b as [|p|p]; try lia.
    assert (E : (inject_Z a / inject_Z (Z.pos p) == a # p)%Q)
      by (symmetry; apply Qmake_Qdiv).
    rewrite E. unfold Qle. simpl. split; nia.
  - unfold Qle. simpl. split; lia.
Qed.

Lemma sum_Z_bounds (ts : list DownloadTask) :
  Forall (λ t, 0 ≤ downloaded t ≤ file_size t) ts →
  0 ≤ sum_Z (downloaded <$> ts) ≤ sum_Z (file_size <$> ts).
Proof.
  induction 1 as [|t ts [Ht1 Ht2] _ [IH1 IH2]]; [simpl; lia|].
  rewrite !fmap_cons. split.
  - exact (Z.add_nonneg_nonneg _ _ Ht1 IH1).
  - exact (Z.add_le_mono _ _ _ _ Ht2 IH2).
Qed.

(** X17: when every task of the manager has a counter between 0 and its
    expected size, every line displayed reports a progress between 0 and
    100 percent, a byte total within the size total, and a number of
    Completed tasks within the number of tracked tasks. *)
Theorem progress_line_within_bounds
    (store : list DownloadTask) (tr : AdvancedProgressTracker) (l : ProgressLine) :
  Forall (λ t, 0 ≤ downloaded t ≤ file_size t) store →
  display_progress store tr = Some l →
  (0 <= overall_progress l)%Q ∧ (overall_progress l <= 100)%Q ∧
  0 ≤ total_downloaded l ≤ total_size l ∧
  0 ≤ completed_count l ≤ total_count l.
Proof.
  intros Hb Hl. unfold display_progress in Hl.
  destruct (bool_decide (tasks tr = ∅)); [discriminate Hl|].
  injection Hl as <-. simpl.
  pose proof (tracked_Forall _ store (map_to_list (tasks tr)) Hb) as Htr.
  fold (tracked store tr) in Htr.
  pose proof (sum_Z_bounds _ Htr) as Hsum.
  destruct (progress_fraction_range _ _ Hsum) as [H0 H100].
  repeat split; try assumption; try apply Hsum.
  - unfold count_status. lia.
  - unfold count_status. rewrite <- length_map_to_list.
    apply inj_le. etransitivity; [apply length_filter|]. apply omap_length_le.
Qed.

Lemma progress_line_within_bounds_witness :
  let s := set_file_size 4 (set_downloaded 2 (set_status downloading ep1)) in
  let tr := mkTracker {[ "downloads/ep1.mp4" := O ]} 0%Q 1%Q in
  (overall_progress (mkLine (200 # 4) 0 1 2 4) <= 100)%Q.
Proof.
  intros s tr.
  apply (progress_line_within_bounds [s] tr (mkLine (200 # 4) 0 1 2 4)).
  - repeat constructor; simpl; lia.
  - vm_compute. reflexivity.
Defined.

(** ** Cancel, snapshot, restore *)

Lemma has_partial_content_size (fs : Files) (f : string) :
  has_partial_content fs f = bool_decide (0 < getsize fs f).
Proof.
  unfold has_partial_content, path_exists, getsize.
  destruct (fs !! f) as [content|].
  - rewrite bool_decide_eq_true_2 by eauto. reflexivity.
  - rewrite (bool_decide_eq_false_2 (0 < 0)) by lia. apply andb_false_r.
Qed.

(** X18: cancel, then restart.  A cancelled attempt leaves its task Paused
    with the retry counter as it was, and writes the manifest.  When that
    write meets no fault, loading the manifest in a fresh manager gives
    back that task, Paused, with the size of its destination as counter,
    provided at least one byte is on disk; it gives nothing (and [False])
    when the destination is empty or missing.  The restored counter is the
    size on disk, not what the cancelled attempt had counted: the two
    differ when the cancellation landed in a write. *)
Theorem cancelled_attempt_round_trip
    (env : Attempt) (fs : Files) (t : DownloadTask) (manifest : Manifest)
    (mc cs : Z) :
  attempt_outcome env = Some Cancelled →
  let r := download_with_progress env fs t in
  let size := getsize (res_files r) (filename t) in
  status (res_task r) = paused ∧
  retry_count (res_task r) = retry_count t ∧
  load_resume_data
    (res_manifest r NoFault (mkManager mc cs [t]) 0 manifest)
    (res_files r) (mkManager mc cs [])
  = if bool_decide (0 < size)
    then (mkManager mc cs [set_downloaded size (res_task r)], true)
    else (mkManager mc cs [], false).
Proof.
  intros Hout r size.
  destruct (download_with_progress_fields env fs t) as [_ Hf].
  rewrite Hout in Hf. fold r in Hf. destruct Hf as [Hs Hr].
  split; [exact Hs|]. split; [exact Hr|].
  destruct (attempt_identity env fs t) as (_ & Hfn & _). fold r in Hfn.
  destruct (attempt_manifest env fs t) as [Hman _]. fold r in Hman.
  rewrite Hman, Hout.
  change (with_tasks _ _) with (mkManager mc cs [res_task r]).
  rewrite load_after_save. simpl.
  assert (Hin : in_flight (res_task r) = true)
    by (unfold in_flight; rewrite Hs; reflexivity).
  rewrite (filter_cons (λ t0, in_flight t0 = true)), decide_True by exact Hin.
  rewrite filter_nil, filter_cons, filter_nil.
  rewrite has_partial_content_size, Hfn. fold size.
  case_bool_decide as Hpos.
  - rewrite decide_True by reflexivity. simpl. unfold with_tasks. simpl.
    do 3 f_equal. unfold restore_task. rewrite Hfn. fold size. rewrite <- Hs.
    destruct (res_task r); reflexivity.
  - rewrite decide_False by discriminate. reflexivity.
Qed.

Lemma cancelled_attempt_round_trip_witness :
  let env := mkAttempt (inr (mkResponse 200 (Some 8) [zeros 4]
                               (Some (mkFault Cancelled (zeros 2) 6))))
                       None None in
  let r := download_with_progress env ∅ ep1 in
  downloaded (res_task r) = 4 ∧
  (load_resume_data
     (res_manifest r NoFault (mkManager 3 1048576 [ep1]) 0 None)
     (res_files r) (mkManager 3 1048576 [])).1
  = mkManager 3 1048576 [set_file_size 8 (set_downloaded 6 (set_status paused ep1))].
Proof.
  intros env r. split; [reflexivity|].
  destruct (cancelled_attempt_round_trip env ∅ ep1 None 3 1048576 eq_refl)
    as (_ & _ & E).
  fold r in E. rewrite E. vm_compute. reflexivity.
Defined.

(** ** The progress displayed over one attempt *)






(** The events [run_tasks] records for the attempt of the task after
    [done] are its [attempt_events]. *)
Lemma run_tasks_attempt_events (done rest : list DownloadTask) (t : DownloadTask)
    (r : AttemptResult) :
  map (λ s, (length done, done ++ s :: rest)) (res_trace r)
  = attempt_events (length done) (done ++ t :: rest) r.
Proof.
  unfold attempt_events. apply map_ext. intros s. f_equal.
  rewrite insert_app_r_alt, Nat.sub_diag by reflexivity. reflexivity.
Qed.




